(** * crunchyroll-go: session bootstrap, response normalisation and
      stream/format resolution

    A shallow embedding of the decision logic of the session source
    ([crunchyroll.go]) and of the episode, series and movie sources,
    followed by the properties that the design document states about
    it.

    Conventions of the embedding:
    - a Go call returning [(T, error)] is a [result T]: [Ok v] stands for
      [(v, nil)], [Err e] for [(nil, e)], and [Panic why] for a run-time
      panic (failed type assertion, index out of range, nil map entry);
    - the network is an oracle [Net] that answers a request from the
      history of the requests sent before it, so that any deterministic
      stateful server (and any test mock) is an instance; the history is
      the only state threaded through the calls and doubles as the log
      of what was sent;
    - a buffered response body is represented by what [buf.Len()] and
      [json.Unmarshal(buf.Bytes(), &errMap)] report about it ([body]);
    - Go [int] is 64 bits wide with wrap-around written out. *)

From Stdlib Require Import ZArith String Ascii List Lia Bool.
From stdpp Require Import base option list gmap strings sorting.

#[local] Set Warnings "-register-all".
#[local] Open Scope Z_scope.
#[local] Open Scope string_scope.
#[local] Open Scope list_scope.

(* ===================================================================== *)
(** ** Go run-time notions                                                *)
(* ===================================================================== *)

Module Go.

(** Outcome of a call: normal return, error return, or panic. *)
Inductive result (E A : Type) : Type :=
  | Ok (a : A)
  | Err (e : E)
  | Panic (why : string).
Arguments Ok {E A} a.
Arguments Err {E A} e.
Arguments Panic {E A} why.

(** A slice value: [None] is the nil slice, [Some l] a non-nil slice
    (possibly of length zero). *)
Definition slice (A : Type) : Type := option (list A).

Definition elems {A} (s : slice A) : list A :=
  match s with None => [] | Some l => l end.

(** [append(s, x)]: appending to nil allocates. *)
Definition append {A} (s : slice A) (x : A) : slice A := Some (elems s ++ [x]).

Definition is_nil {A} (s : slice A) : bool :=
  match s with None => true | Some _ => false end.

(** *** 64-bit [int] *)
Definition int_min : Z := - 2 ^ 63.
Definition int_max : Z := 2 ^ 63 - 1.
Definition wrap (z : Z) : Z := (z + 2 ^ 63) mod 2 ^ 64 - 2 ^ 63.
Definition int_add (x y : Z) : Z := wrap (x + y).

(** *** [strings.SplitN(s, sep, 2)] for a one-byte separator:
    cut at the first occurrence of [sep], or return [s] alone. *)
Fixpoint cut (sep : ascii) (s : string) : option (string * string) :=
  match s with
  | EmptyString => None
  | String c rest =>
      if Ascii.eqb c sep then Some (EmptyString, rest)
      else match cut sep rest with
           | Some (a, b) => Some (String c a, b)
           | None => None
           end
  end.

Definition SplitN2 (s : string) (sep : ascii) : list string :=
  match cut sep s with
  | Some (a, b) => [a; b]
  | None => [s]
  end.

(** Indexing [l[i]]; out of range panics. *)
Definition index {E A} (l : list A) (i : nat) : result E A :=
  match l !! i with
  | Some x => Ok x
  | None => Panic "index out of range"
  end.

(** *** [strconv.Atoi]
    An optional sign followed by at least one decimal digit.  The pair
    is (value, ok).  On a syntax error the value is 0; on a range
    error it is the nearest representable [int]. *)
Definition digit_of (c : ascii) : option Z :=
  let n := Z.of_N (N_of_ascii c) in
  if ((48 <=? n) && (n <=? 57))%Z then Some (n - 48) else None.

Fixpoint digits_val (acc : Z) (s : string) : option Z :=
  match s with
  | EmptyString => Some acc
  | String c rest =>
      match digit_of c with
      | Some d => digits_val (acc * 10 + d) rest
      | None => None
      end
  end.

Definition Atoi (s : string) : Z * bool :=
  match s with
  | EmptyString => (0, false)
  | String c rest =>
      let neg := Ascii.eqb c "-" in
      let body := if neg || Ascii.eqb c "+" then rest else s in
      match body with
      | EmptyString => (0, false)
      | _ =>
          match digits_val 0 body with
          | None => (0, false)
          | Some n =>
              let v := if neg then - n else n in
              if (int_max <? v)%Z then (int_max, false)
              else if (v <? int_min)%Z then (int_min, false)
              else (v, true)
          end
      end
  end.

(** [strings.TrimPrefix] and [strings.HasSuffix]. *)
Fixpoint strip_prefix (p s : string) : option string :=
  match p, s with
  | EmptyString, _ => Some s
  | String a p', String b s' => if Ascii.eqb a b then strip_prefix p' s' else None
  | String _ _, EmptyString => None
  end.

Definition TrimPrefix (s p : string) : string :=
  match strip_prefix p s with Some r => r | None => s end.

Definition HasSuffix (s suffix : string) : bool :=
  let n := String.length s in
  let k := String.length suffix in
  (k <=? n)%nat && String.eqb (String.substring (n - k) k s) suffix.

End Go.
Import Go.

(* ===================================================================== *)
(** ** Untyped JSON, as [encoding/json] decodes it into [any]             *)
(* ===================================================================== *)

(** [map[string]any] is a finite map; a JSON number decodes to a
    [float64] whose value none of the code below inspects. *)
Inductive JSON : Type :=
  | JNull
  | JBool (b : bool)
  | JNumber (n : Z)
  | JString (s : string)
  | JArray (l : list JSON)
  | JObject (m : gmap string JSON).

(** The comma-ok type assertion [v.(string)] on a map entry. *)
Definition as_string (v : option JSON) : option string :=
  match v with Some (JString s) => Some s | _ => None end.

(** The buffered body of a response.
    - [BodyEmpty]: [buf.Len() == 0];
    - [BodyInvalid e]: [json.Unmarshal] into [map[string]any] fails with
      error text [e] (not JSON at all, or JSON that is not an object);
    - [BodyNull]: the JSON text [null]; [json.Unmarshal] succeeds and
      leaves a nil map;
    - [BodyObject m]: a JSON object; [json.Unmarshal] succeeds and
      leaves [m]. *)
Inductive body : Type :=
  | BodyEmpty
  | BodyInvalid (e : string)
  | BodyNull
  | BodyObject (m : gmap string JSON).

(* ===================================================================== *)
(** ** HTTP values                                                        *)
(* ===================================================================== *)

Record Cookie : Type := { Name : string; Value : string }.

Record Request : Type := {
  Method : string;
  URL : string;
  (** form values of the body ([url.Values], one value per key), if any *)
  Form : option (gmap string string);
  Header : gmap string (list string);
  ReqCookies : list Cookie
}.

Record Response : Type := {
  StatusCode : Z;
  Status : string;
  Body : body;
  Cookies : list Cookie
}.

(** The dynamic types an [error] value has in this code base. *)
Inductive error : Type :=
  | RequestError (resp : Response) (Message : string)
  | TransportError (msg : string)
  | ErrorString (msg : string).

Definition res (A : Type) : Type := result error A.

(** What [client.Do] hands back. *)
Inductive DoResult : Type :=
  | DoFail (msg : string)
  | DoResp (resp : Response).

(** [http.NewRequest(method, url, body)] with an empty header. *)
Definition NewRequest (method url : string) (form : option (gmap string string)) : Request :=
  {| Method := method; URL := url; Form := form; Header := ∅; ReqCookies := [] |}.

Definition Header_Set (k v : string) (r : Request) : Request :=
  {| Method := Method r; URL := URL r; Form := Form r;
     Header := <[k := [v]]> (Header r); ReqCookies := ReqCookies r |}.

Definition Header_Add (k v : string) (r : Request) : Request :=
  {| Method := Method r; URL := URL r; Form := Form r;
     Header := <[k := default [] (Header r !! k) ++ [v]]> (Header r);
     ReqCookies := ReqCookies r |}.

Definition AddCookie (c : Cookie) (r : Request) : Request :=
  {| Method := Method r; URL := URL r; Form := Form r;
     Header := Header r; ReqCookies := ReqCookies r ++ [c] |}.

(* ===================================================================== *)
(** ** The request normaliser ([request] in crunchyroll.go)               *)
(* ===================================================================== *)

Module Normalizer.

(** The tail of [request]: [if resp.StatusCode >= 400 {...}; return resp, err]. *)
Definition status_line (resp : Response) : res Response :=
  if (400 <=? StatusCode resp)%Z then Err (RequestError resp (Status resp))
  else Ok resp.

(** The [context] branch: [errContext[0].(map[string]any)] and the
    three string assertions on it are unchecked. *)
Definition context_error (resp : Response) (first : JSON) : res Response :=
  match first with
  | JObject errField =>
      match
        match as_string (errField !! "message") with
        | Some code => Some code
        | None => as_string (errField !! "code")
        end
      with
      | None => Panic "interface conversion: interface {} is not string"
      | Some code =>
          match as_string (errField !! "field") with
          | None => Panic "interface conversion: interface {} is not string"
          | Some field => Err (RequestError resp (code +:+ " - " +:+ field))
          end
      end
  | _ => Panic "interface conversion: interface {} is not map[string]interface {}"
  end.

(** The body of [if err == nil { ... }] in [request].  Every lookup
    in a nil [errMap] misses, so the [null] body falls through to the
    status test. *)
Definition classify (resp : Response) : res Response :=
  match Body resp with
  | BodyEmpty => status_line resp
  | BodyNull => status_line resp
  | BodyInvalid e =>
      Err (RequestError resp ("invalid json response: " +:+ e))
  | BodyObject errMap =>
      match errMap !! "error" with
      | Some val =>
          match val with
          | JString errorAsString =>
              match as_string (errMap !! "code") with
              | Some code =>
                  Err (RequestError resp (errorAsString +:+ " - " +:+ code))
              | None => Err (RequestError resp errorAsString)
              end
          | JBool true =>
              match as_string (errMap !! "message") with
              | Some msg => Err (RequestError resp msg)
              | None => status_line resp
              end
          | _ => status_line resp
          end
      | None =>
          match errMap !! "code" with
          | Some _ =>
              match errMap !! "context" with
              | Some (JArray (first :: _)) => context_error resp first
              | _ =>
                  match as_string (errMap !! "message") with
                  | Some errMessage => Err (RequestError resp errMessage)
                  | None => status_line resp
                  end
              end
          | None => status_line resp
          end
      end
  end.

(** [request(req, client)] on the answer of [client.Do(req)]: a
    transport failure is handed back as it is. *)
Definition request_on (answer : DoResult) : res Response :=
  match answer with
  | DoFail msg => Err (TransportError msg)
  | DoResp resp => classify resp
  end.

End Normalizer.

(* ===================================================================== *)
(** ** Calls that talk to the network                                     *)
(* ===================================================================== *)

(** A computation reads and extends the history of requests sent. *)
Definition M (A : Type) : Type := list Request -> res A * list Request.

Definition ret {A} (a : A) : M A := fun h => (Ok a, h).
Definition fail {A} (e : error) : M A := fun h => (Err e, h).
Definition lift {A} (r : res A) : M A := fun h => (r, h).

(** Sequencing with the idiom [if err != nil { return nil, err }]. *)
Definition bind {A B} (m : M A) (k : A -> M B) : M B :=
  fun h =>
    match m h with
    | (Ok a, h') => k a h'
    | (Err e, h') => (Err e, h')
    | (Panic why, h') => (Panic why, h')
    end.

Notation "'call' x <- m ;; k" := (bind m (fun x => k))
  (at level 10, x name, m at level 99, k at level 200).
Notation "'call' ' pat <- m ;; k" := (bind m (fun x => match x with pat => k end))
  (at level 10, pat pattern, m at level 99, k at level 200).

(** Unchecked assertions [v.(string)] and [v.(map[string]any)] on a map
    entry: a missing key yields a nil interface, which fails them too. *)
Definition must_string (v : option JSON) : res string :=
  match v with
  | Some (JString s) => Ok s
  | _ => Panic "interface conversion: interface {} is not string"
  end.

Definition must_object (v : option JSON) : res (gmap string JSON) :=
  match v with
  | Some (JObject m) => Ok m
  | _ => Panic "interface conversion: interface {} is not map[string]interface {}"
  end.

Definition must_array (v : option JSON) : res (list JSON) :=
  match v with
  | Some (JArray l) => Ok l
  | _ => Panic "interface conversion: interface {} is not []interface {}"
  end.

(** [json.NewDecoder(resp.Body).Decode(&jsonBody)] with the error
    dropped: an object is stored into the existing map (allocated when
    nil) key by key, [null] resets the map to nil, and on a decoding
    error the map is left as it was. *)
Definition Decode (b : body) (jsonBody : gmap string JSON) : gmap string JSON :=
  match b with
  | BodyObject m => m ∪ jsonBody
  | BodyNull => ∅
  | BodyEmpty | BodyInvalid _ => jsonBody
  end.

Record loginResponse : Type := {
  lr_AccessToken : string;
  lr_RefreshToken : string;
  lr_ExpiresIn : Z;
  lr_TokenType : string;
  lr_Scope : string;
  lr_Country : string;
  lr_AccountID : string
}.

Record Config : Type := {
  TokenType : string;
  AccessToken : string;
  Bucket : string;
  CountryCode : string;
  Premium : bool;
  Channel : string;
  Policy : string;
  Signature : string;
  KeyPairID : string;
  AccountID : string;
  ExternalID : string;
  MaturityRating : string
}.

(** The session.  [Client] is the network oracle and [Context] plays no
    part in the calls modelled here. *)
Record Crunchyroll : Type := {
  Locale : string;
  RefreshToken : string;
  config : Config;
  cache : bool
}.

Definition with_config (f : Config -> Config) (c : Crunchyroll) : Crunchyroll :=
  {| Locale := Locale c; RefreshToken := RefreshToken c;
     config := f (config c); cache := cache c |}.

Definition set_Bucket (v : string) (g : Config) : Config :=
  {| TokenType := TokenType g; AccessToken := AccessToken g; Bucket := v;
     CountryCode := CountryCode g; Premium := Premium g; Channel := Channel g;
     Policy := Policy g; Signature := Signature g; KeyPairID := KeyPairID g;
     AccountID := AccountID g; ExternalID := ExternalID g;
     MaturityRating := MaturityRating g |}.

Definition set_Premium (v : bool) (g : Config) : Config :=
  {| TokenType := TokenType g; AccessToken := AccessToken g; Bucket := Bucket g;
     CountryCode := CountryCode g; Premium := v; Channel := Channel g;
     Policy := Policy g; Signature := Signature g; KeyPairID := KeyPairID g;
     AccountID := AccountID g; ExternalID := ExternalID g;
     MaturityRating := MaturityRating g |}.

Definition set_Policy (v : string) (g : Config) : Config :=
  {| TokenType := TokenType g; AccessToken := AccessToken g; Bucket := Bucket g;
     CountryCode := CountryCode g; Premium := Premium g; Channel := Channel g;
     Policy := v; Signature := Signature g; KeyPairID := KeyPairID g;
     AccountID := AccountID g; ExternalID := ExternalID g;
     MaturityRating := MaturityRating g |}.

Definition set_Signature (v : string) (g : Config) : Config :=
  {| TokenType := TokenType g; AccessToken := AccessToken g; Bucket := Bucket g;
     CountryCode := CountryCode g; Premium := Premium g; Channel := Channel g;
     Policy := Policy g; Signature := v; KeyPairID := KeyPairID g;
     AccountID := AccountID g; ExternalID := ExternalID g;
     MaturityRating := MaturityRating g |}.

Definition set_KeyPairID (v : string) (g : Config) : Config :=
  {| TokenType := TokenType g; AccessToken := AccessToken g; Bucket := Bucket g;
     CountryCode := CountryCode g; Premium := Premium g; Channel := Channel g;
     Policy := Policy g; Signature := Signature g; KeyPairID := v;
     AccountID := AccountID g; ExternalID := ExternalID g;
     MaturityRating := MaturityRating g |}.

Definition set_ExternalID (v : string) (g : Config) : Config :=
  {| TokenType := TokenType g; AccessToken := AccessToken g; Bucket := Bucket g;
     CountryCode := CountryCode g; Premium := Premium g; Channel := Channel g;
     Policy := Policy g; Signature := Signature g; KeyPairID := KeyPairID g;
     AccountID := AccountID g; ExternalID := v;
     MaturityRating := MaturityRating g |}.

Definition set_MaturityRating (v : string) (g : Config) : Config :=
  {| TokenType := TokenType g; AccessToken := AccessToken g; Bucket := Bucket g;
     CountryCode := CountryCode g; Premium := Premium g; Channel := Channel g;
     Policy := Policy g; Signature := Signature g; KeyPairID := KeyPairID g;
     AccountID := AccountID g; ExternalID := ExternalID g;
     MaturityRating := v |}.

(** [IsCaching] and [SetCaching]. *)
Definition IsCaching (c : Crunchyroll) : bool := cache c.

Definition SetCaching (caching : bool) (c : Crunchyroll) : Crunchyroll :=
  {| Locale := Locale c; RefreshToken := RefreshToken c;
     config := config c; cache := caching |}.

Definition basic_auth_A : string :=
  "Basic aHJobzlxM2F3dnNrMjJ1LXRzNWE6cHROOURteXRBU2Z6QjZvbXVsSzh6cUxzYTczVE1TY1k=".
Definition basic_auth_B : string := "Basic bm9haWhkZXZtXzZpeWcwYThsMHE6".
Definition token_endpoint : string := "https://beta-api.crunchyroll.com/auth/v1/token".
Definition StatusBadRequest : Z := 400.
Definition index_endpoint : string := "https://beta-api.crunchyroll.com/index/v2".
Definition me_endpoint : string := "https://beta-api.crunchyroll.com/accounts/v1/me".
Definition profile_endpoint : string := "https://beta-api.crunchyroll.com/accounts/v1/me/profile".

Section Client.

(** [client.Do]: the answer to a request, given what was sent before. *)
Variable Net : list Request -> Request -> DoResult.

(** The error of [http.NewRequest(method, url, _)], if it has one
    (unknown method or unparsable URL). *)
Variable NewRequest_error : string -> string -> option string.

(** [json.NewDecoder(resp.Body).Decode(&loginResp)] with the error
    dropped: the typed token record read off a body. *)
Variable decode_loginResponse : body -> loginResponse.

(** [request(req, client)]. *)
Definition request (req : Request) : M Response :=
  fun h => (Normalizer.request_on (Net h req), h ++ [req]).

(** The method [requestFull] of the session. *)
Definition requestFull (c : Crunchyroll) (req : Request) : M Response :=
  request (Header_Add "Authorization"
             (TokenType (config c) +:+ " " +:+ AccessToken (config c)) req).

(** The method [request] of the session. *)
Definition Crunchyroll_request (c : Crunchyroll) (endpoint method : string) : M Response :=
  match NewRequest_error method endpoint with
  | Some e => fail (ErrorString e)
  | None => requestFull c (NewRequest method endpoint None)
  end.

(** The session value [postLogin] starts from: the composite literal
    followed by the four assignments from the token response. *)
Definition new_session (loginResp : loginResponse) (locale : string) : Crunchyroll :=
  {| Locale := locale;
     RefreshToken := lr_RefreshToken loginResp;
     cache := true;
     config := {| TokenType := lr_TokenType loginResp;
                  AccessToken := lr_AccessToken loginResp;
                  AccountID := lr_AccountID loginResp;
                  CountryCode := lr_Country loginResp;
                  Bucket := ""; Premium := false; Channel := "";
                  Policy := ""; Signature := ""; KeyPairID := "";
                  ExternalID := ""; MaturityRating := "" |} |}.

(** The follow-up calls of [postLogin] (index, account identity,
    profile), as issued with the session just created. *)
Definition bootstrap_call (loginResp : loginResponse) (locale endpoint : string)
  : M Response :=
  Crunchyroll_request (new_session loginResp locale) endpoint "GET".

(** [postLogin]. *)
Definition postLogin (loginResp : loginResponse) (locale : string) : M Crunchyroll :=
  let crunchy := new_session loginResp locale in
  let jsonBody : gmap string JSON := ∅ in
  call resp <- Crunchyroll_request crunchy index_endpoint "GET" ;;
  let jsonBody := Decode (Body resp) jsonBody in
  call cms <- lift (must_object (jsonBody !! "cms")) ;;
  call bucket <- lift (must_string (cms !! "bucket")) ;;
  let crunchy := with_config (set_Bucket (TrimPrefix bucket "/")) crunchy in
  let crunchy :=
    with_config (set_Premium (HasSuffix (Bucket (config crunchy)) "crunchyroll")) crunchy in
  call policy <- lift (must_string (cms !! "policy")) ;;
  let crunchy := with_config (set_Policy policy) crunchy in
  call signature <- lift (must_string (cms !! "signature")) ;;
  let crunchy := with_config (set_Signature signature) crunchy in
  call keyPairID <- lift (must_string (cms !! "key_pair_id")) ;;
  let crunchy := with_config (set_KeyPairID keyPairID) crunchy in
  call resp <- Crunchyroll_request crunchy me_endpoint "GET" ;;
  let jsonBody := Decode (Body resp) jsonBody in
  call externalID <- lift (must_string (jsonBody !! "external_id")) ;;
  let crunchy := with_config (set_ExternalID externalID) crunchy in
  call resp <- Crunchyroll_request crunchy profile_endpoint "GET" ;;
  let jsonBody := Decode (Body resp) jsonBody in
  call maturityRating <- lift (must_string (jsonBody !! "maturity_rating")) ;;
  let crunchy := with_config (set_MaturityRating maturityRating) crunchy in
  ret crunchy.

(** The first token request of [LoginWithRefreshToken]. *)
Definition refresh_request (refreshToken : string) : Request :=
  let grantType : gmap string string :=
    <["scope" := "offline_access"]>
      (<["grant_type" := "refresh_token"]>
         (<["refresh_token" := refreshToken]> ∅)) in
  Header_Set "Content-Type" "application/x-www-form-urlencoded"
    (Header_Set "Authorization" basic_auth_A
       (NewRequest "POST" token_endpoint (Some grantType))).

(** The request built inside the [StatusBadRequest] branch. *)
Definition cookie_request (refreshToken : string) : Request :=
  let grantType : gmap string string :=
    <["scope" := "offline_access"]> (<["grant_type" := "etp_rt_cookie"]> ∅) in
  AddCookie {| Name := "etp_rt"; Value := refreshToken |}
    (Header_Set "Content-Type" "application/x-www-form-urlencoded"
       (Header_Set "Authorization" basic_auth_B
          (NewRequest "POST" token_endpoint (Some grantType)))).

(** The token exchange of [LoginWithRefreshToken], up to the response
    that is decoded.  The type assertion on [err] (to a
    pointer to [RequestError]) is the one-result form: it panics when
    [err] has another dynamic type. *)
Definition refresh_exchange (refreshToken : string) : M Response :=
  match NewRequest_error "POST" token_endpoint with
  | Some e => fail (ErrorString e)
  | None =>
      fun h =>
        match request (refresh_request refreshToken) h with
        | (Ok resp, h1) => (Ok resp, h1)
        | (Panic why, h1) => (Panic why, h1)
        | (Err err, h1) =>
            match err with
            | RequestError r _ =>
                if (StatusCode r =? StatusBadRequest)%Z then
                  match NewRequest_error "POST" token_endpoint with
                  | Some e => (Err (ErrorString e), h1)
                  | None => request (cookie_request refreshToken) h1
                  end
                else (Err err, h1)
            | _ =>
                (Panic "interface conversion: error is not *crunchyroll.RequestError", h1)
            end
        end
  end.

(** [LoginWithRefreshToken]. *)
Definition LoginWithRefreshToken (refreshToken locale : string) : M Crunchyroll :=
  call resp <- refresh_exchange refreshToken ;;
  postLogin (decode_loginResponse (Body resp)) locale.

End Client.

(* ===================================================================== *)
(** ** Streams and formats                                                *)
(* ===================================================================== *)

(** Modelled from the spec: the declarations of [Subtitle], [Format] and
    [Stream] are not among the sources at hand.  The fields are the ones
    the code reads ([streamSubtitle.Locale], [format.Video.Resolution],
    [stream.HardsubLocale], [stream.Subtitles], [stream.AudioLocale]);
    [FormatID] and [StreamID] stand for the rest of the record and tell
    apart two values with equal fields read here, as pointers do. *)
Record Subtitle : Type := { SubtitleLocale : string }.

Record Format : Type := {
  FormatID : string;
  (** [format.Video.Resolution], kept as text: WIDTHxHEIGHT *)
  Resolution : string
}.

Record Stream : Type := {
  StreamID : string;
  HardsubLocale : string;
  AudioLocale : string;
  Subtitles : list Subtitle
}.

Module Episode.

Record t : Type := {
  ID : string;
  StreamID : string;
  (** the cache slot [children []*Stream] *)
  children : slice Stream
}.

Definition set_children (v : slice Stream) (e : t) : t :=
  {| ID := ID e; StreamID := StreamID e; children := v |}.

(** The test of the first loop of [GetFormat] on one stream.  In Go
    [&&] binds tighter than [||], and the inner loop over the subtitle
    tracks runs only in the [else if !hardsub] arm. *)
Definition stream_matches (subtitle : string) (hardsub : bool) (stream : Stream) : bool :=
  if (hardsub && String.eqb (HardsubLocale stream) subtitle)
     || (String.eqb (HardsubLocale stream) "" && String.eqb subtitle "")
  then true
  else if negb hardsub then
    existsb (fun streamSubtitle => String.eqb (SubtitleLocale streamSubtitle) subtitle)
            (Subtitles stream)
  else false.

(** The first loop of [GetFormat]: [foundStream] after it. *)
Fixpoint find_stream (subtitle : string) (hardsub : bool) (streams : list Stream)
  : option Stream :=
  match streams with
  | [] => None
  | stream :: rest =>
      if stream_matches subtitle hardsub stream then Some stream
      else find_stream subtitle hardsub rest
  end.

(** [strings.SplitN(r, "x", 2)] followed by [Atoi] of the elements 0
    and 1 and their sum; element 1 is missing when [r] has no x. *)
Definition resolution_sum (r : string) : res Z :=
  let splitRes := SplitN2 r "x" in
  match index splitRes 0 with
  | Ok s0 =>
      let resX := fst (Atoi s0) in
      match index splitRes 1 with
      | Ok s1 =>
          let resY := fst (Atoi s1) in
          Ok (int_add resX resY)
      | Err e => Err e
      | Panic why => Panic why
      end
  | Err e => Err e
  | Panic why => Panic why
  end.

(** The second loop of [GetFormat] with its epilogue; [res] is the
    running candidate ([None] is the nil pointer). *)
Fixpoint pick_format (resolution : string) (res : option Format) (formats : list Format)
  : Go.result error Format :=
  match formats with
  | [] =>
      match res with
      | Some r => Ok r
      | None => Err (ErrorString "no matching resolution found")
      end
  | format :: rest =>
      if String.eqb resolution "worst" || String.eqb resolution "best" then
        match res with
        | None => pick_format resolution (Some format) rest
        | Some r =>
            match resolution_sum (Resolution format) with
            | Ok cur =>
                match resolution_sum (Resolution r) with
                | Ok old =>
                    let res' :=
                      if String.eqb resolution "worst" && (cur <? old)%Z then Some format
                      else if String.eqb resolution "best" && (old <? cur)%Z then Some format
                      else res in
                    if String.eqb (Resolution format) resolution then Ok format
                    else pick_format resolution res' rest
                | Err e => Err e
                | Panic why => Panic why
                end
            | Err e => Err e
            | Panic why => Panic why
            end
        end
      else if String.eqb (Resolution format) resolution then Ok format
      else pick_format resolution res rest
  end.

Section Methods.

(** [fromVideoStreams(crunchy, endpoint)]: fetches and decodes the
    stream list; declared outside the sources at hand. *)
Variable fromVideoStreams : Crunchyroll -> string -> M (slice Stream).

(** [stream.Formats()]: resolves the formats of a stream; declared
    outside the sources at hand. *)
Variable Formats : Stream -> M (slice Format).

Definition streams_endpoint (c : Crunchyroll) (e : t) : string :=
  "https://www.crunchyroll.com/cms/v2/" +:+ Bucket (config c)
  +:+ "/videos/" +:+ StreamID e
  +:+ "/streams?locale=" +:+ Locale c
  +:+ "&Signature=" +:+ Signature (config c)
  +:+ "&Policy=" +:+ Policy (config c)
  +:+ "&Key-Pair-Id=" +:+ KeyPairID (config c).

(** [Streams]: [c] is the session [e.crunchy] points to, as it is
    when the call is made; the episode is returned with its cache
    slot as the call leaves it. *)
Definition Streams (c : Crunchyroll) (e : t) : M (slice Stream * t) :=
  if negb (is_nil (children e)) then ret (children e, e)
  else
    call streams <- fromVideoStreams c (streams_endpoint c e) ;;
    let e := if cache c then set_children streams e else e in
    ret (streams, e).

(** The first half of [GetFormat], up to and including the test
    [if foundStream == nil]. *)
Definition select_stream (c : Crunchyroll) (e : t)
    (subtitle : string) (hardsub : bool) : M (Stream * t) :=
  call '(streams, e) <- Streams c e ;;
  match find_stream subtitle hardsub (elems streams) with
  | None => fail (ErrorString "no matching stream found")
  | Some foundStream => ret (foundStream, e)
  end.

(** [GetFormat]. *)
Definition GetFormat (c : Crunchyroll) (e : t)
    (resolution subtitle : string) (hardsub : bool) : M (Format * t) :=
  call '(foundStream, e) <- select_stream c e subtitle hardsub ;;
  call formats <- Formats foundStream ;;
  call format <- lift (pick_format resolution None (elems formats)) ;;
  ret (format, e).

End Methods.

End Episode.

(* ===================================================================== *)
(** ** Series and movies: the cached child lists                          *)
(* ===================================================================== *)

(** [for _, item := range items { ...; decodeMapToStruct(item, x); list = append(list, x) }]
    with the declared result [list] starting as nil. *)
Fixpoint decode_items {A} (decode : JSON -> res A) (items : list JSON) (acc : slice A)
  : res (slice A) :=
  match items with
  | [] => Ok acc
  | item :: rest =>
      match decode item with
      | Ok x => decode_items decode rest (append acc x)
      | Err e => Err e
      | Panic why => Panic why
      end
  end.

Module Series.

Section Methods.

(** [Season] and [decodeMapToStruct] on a fresh [Season] are
    declared outside the sources at hand. *)
Variable Season : Type.
Variable decodeMapToStruct : JSON -> res Season.
Variable Net : list Request -> Request -> DoResult.
Variable NewRequest_error : string -> string -> option string.

Record t : Type := {
  ID : string;
  children : slice Season
}.

Definition set_children (v : slice Season) (s : t) : t :=
  {| ID := ID s; children := v |}.

Definition seasons_endpoint (c : Crunchyroll) (s : t) : string :=
  "https://www.crunchyroll.com/cms/v2/" +:+ Bucket (config c)
  +:+ "/seasons?series_id=" +:+ ID s
  +:+ "&locale=" +:+ Locale c
  +:+ "&Signature=" +:+ Signature (config c)
  +:+ "&Policy=" +:+ Policy (config c)
  +:+ "&Key-Pair-Id=" +:+ KeyPairID (config c).

(** [Seasons]. *)
Definition Seasons (c : Crunchyroll) (s : t) : M (slice Season * t) :=
  if negb (is_nil (children s)) then ret (children s, s)
  else
    call resp <- Crunchyroll_request Net NewRequest_error c (seasons_endpoint c s) "GET" ;;
    let jsonBody := Decode (Body resp) ∅ in
    call items <- lift (must_array (jsonBody !! "items")) ;;
    call seasons <- lift (decode_items decodeMapToStruct items None) ;;
    let s := if cache c then set_children seasons s else s in
    ret (seasons, s).

End Methods.

End Series.

Module Movie.

Section Methods.

(** [MovieListing] (the record) and [decodeMapToStruct] on a fresh
    one are declared outside the sources at hand. *)
Variable Listing : Type.
Variable decodeMapToStruct : JSON -> res Listing.
Variable Net : list Request -> Request -> DoResult.
Variable NewRequest_error : string -> string -> option string.

Record t : Type := {
  ID : string;
  children : slice Listing
}.

Definition set_children (v : slice Listing) (m : t) : t :=
  {| ID := ID m; children := v |}.

Definition movies_endpoint (c : Crunchyroll) (m : t) : string :=
  "https://www.crunchyroll.com/cms/v2/" +:+ Bucket (config c)
  +:+ "/movies?movie_listing_id=" +:+ ID m
  +:+ "&locale=" +:+ Locale c
  +:+ "&Signature=" +:+ Signature (config c)
  +:+ "&Policy=" +:+ Policy (config c)
  +:+ "&Key-Pair-Id=" +:+ KeyPairID (config c).

(** [MovieListing] (the method). *)
Definition MovieListing (c : Crunchyroll) (m : t) : M (slice Listing * t) :=
  if negb (is_nil (children m)) then ret (children m, m)
  else
    call resp <- Crunchyroll_request Net NewRequest_error c (movies_endpoint c m) "GET" ;;
    let jsonBody := Decode (Body resp) ∅ in
    call items <- lift (must_array (jsonBody !! "items")) ;;
    call movieListings <- lift (decode_items decodeMapToStruct items None) ;;
    let m := if cache c then set_children movieListings m else m in
    ret (movieListings, m).

End Methods.

End Movie.

(* ===================================================================== *)
(** ** The selection rules as the design document words them              *)
(* ===================================================================== *)

Module Rules.

(** "whose hardsub locale equals the requested subtitle locale, OR
    whose hardsub locale is empty AND the requested subtitle locale is
    also empty". *)
Definition hard_match (subtitle : string) (s : Stream) : Prop :=
  HardsubLocale s = subtitle \/ (HardsubLocale s = "" /\ subtitle = "").

(** "has at least one subtitle-track descriptor whose locale equals
    the requested subtitle locale". *)
Definition has_track (subtitle : string) (s : Stream) : Prop :=
  exists track, In track (Subtitles s) /\ SubtitleLocale track = subtitle.

(** What the code accepts when hardsub is not wanted: the track rule,
    or the "no hardsub, no request" rule. *)
Definition soft_match (subtitle : string) (s : Stream) : Prop :=
  (HardsubLocale s = "" /\ subtitle = "") \/ has_track subtitle s.

(** [s] is the first element of [l] that satisfies [P]. *)
Definition first_such {A} (P : A -> Prop) (l : list A) (s : A) : Prop :=
  exists pre post, l = pre ++ s :: post /\ P s /\ Forall (fun x => ~ P x) pre.

(** A resolution text that parses as WIDTHxHEIGHT: an x, with an
    integer on either side of the first one. *)
Definition well_formed (r : string) : bool :=
  match cut "x" r with
  | Some (w, h) => snd (Atoi w) && snd (Atoi h)
  | None => false
  end.

(** The ranking key of a resolution text: width plus height. *)
Definition key (r : string) : Z :=
  match cut "x" r with
  | Some (w, h) => int_add (fst (Atoi w)) (fst (Atoi h))
  | None => 0
  end.

Definition has_x (f : Format) : Prop := is_Some (cut "x" (Resolution f)).

(** [b] is the earliest element of [l] with the largest key. *)
Definition earliest_best (l : list Format) (b : Format) : Prop :=
  exists pre post,
    l = pre ++ b :: post
    /\ Forall (fun g => (key (Resolution g) < key (Resolution b))%Z) pre
    /\ Forall (fun g => (key (Resolution g) <= key (Resolution b))%Z) post.

(** [b] is the earliest element of [l] with the smallest key. *)
Definition earliest_worst (l : list Format) (b : Format) : Prop :=
  exists pre post,
    l = pre ++ b :: post
    /\ Forall (fun g => (key (Resolution b) < key (Resolution g))%Z) pre
    /\ Forall (fun g => (key (Resolution b) <= key (Resolution g))%Z) post.

End Rules.

(* ===================================================================== *)
(** ** The classification as the design document words it                *)
(* ===================================================================== *)

Module Documented.

(** "<field-level message or code>" of the first context element. *)
Definition field_code (errField : gmap string JSON) : option string :=
  match as_string (errField !! "message") with
  | Some s => Some s
  | None => as_string (errField !! "code")
  end.

Definition context_message (m : gmap string JSON) : option string :=
  match m !! "code", m !! "context" with
  | Some _, Some (JArray (JObject errField :: _)) =>
      match field_code errField, as_string (errField !! "field") with
      | Some code, Some field => Some (code +:+ " - " +:+ field)
      | _, _ => None
      end
  | _, _ => None
  end.

Definition code_message (m : gmap string JSON) : option string :=
  match m !! "code" with
  | Some _ => as_string (m !! "message")
  | None => None
  end.

(** The four shapes, each tried when the ones before it did not
    match: string "error" (with or without string "code"), "error"
    true with "message", "code" with a non-empty "context", "code"
    with "message". *)
Definition message (m : gmap string JSON) : option string :=
  match m !! "error" with
  | Some (JString e) =>
      match as_string (m !! "code") with
      | Some c => Some (e +:+ " - " +:+ c)
      | None => Some e
      end
  | other =>
      match other, as_string (m !! "message") with
      | Some (JBool true), Some msg => Some msg
      | _, _ =>
          match context_message m with
          | Some msg => Some msg
          | None => code_message m
          end
      end
  end.

(** [m !! "context"] is a list with at least one element. *)
Definition nonempty_list (v : option JSON) : bool :=
  match v with Some (JArray (_ :: _)) => true | _ => false end.

Definition is_string (v : option JSON) : bool :=
  match as_string v with Some _ => true | None => false end.

(** Bodies that the code leaves to the status test: an "error" entry
    that is neither a string nor true with a string "message"; or no
    "error" entry and either no "code" entry, or a "code" entry with
    neither a non-empty "context" list nor a string "message". *)
Definition unmatched (m : gmap string JSON) : bool :=
  match m !! "error" with
  | Some (JString _) => false
  | Some (JBool true) => negb (is_string (m !! "message"))
  | Some _ => true
  | None =>
      match m !! "code" with
      | None => true
      | Some _ => negb (nonempty_list (m !! "context")) && negb (is_string (m !! "message"))
      end
  end.

End Documented.


(* ===================================================================== *)
(** ** Concrete responses and servers used in the examples                *)
(* ===================================================================== *)

Module Sample.

Definition response (code : Z) (status : string) (b : body) : Response :=
  {| StatusCode := code; Status := status; Body := b; Cookies := [] |}.

Definition a_request : Request :=
  NewRequest "GET" "https://beta-api.crunchyroll.com/index/v2" None.

(** A server that gives the same answer to every request. *)
Definition always (resp : Response) : list Request -> Request -> DoResult :=
  fun _ _ => DoResp resp.

(** A transport that never reaches the server. *)
Definition unreachable : list Request -> Request -> DoResult :=
  fun _ _ => DoFail "dial tcp: connection refused".

Definition no_NewRequest_error : string -> string -> option string :=
  fun _ _ => None.

(** Body: code "invalid", context [1]. *)
Definition context_not_object_map : gmap string JSON :=
  <["code" := JString "invalid"]> (<["context" := JArray [JNumber 1]]> ∅).
Definition context_not_object : Response :=
  response 400 "400 Bad Request" (BodyObject context_not_object_map).

(** Body: code "invalid", context [{}]. *)
Definition context_without_strings_map : gmap string JSON :=
  <["code" := JString "invalid"]> (<["context" := JArray [JObject ∅]]> ∅).
Definition context_without_strings : Response :=
  response 400 "400 Bad Request" (BodyObject context_without_strings_map).

(** Body: code "invalid", context [{message "too short"}]. *)
Definition context_without_field_map : gmap string JSON :=
  <["code" := JString "invalid"]>
    (<["context" := JArray [JObject (<["message" := JString "too short"]> ∅)]]> ∅).
Definition context_without_field : Response :=
  response 400 "400 Bad Request" (BodyObject context_without_field_map).


(** Body: error "invalid_grant", code "auth.obtain". *)
Definition error_with_code_map : gmap string JSON :=
  <["error" := JString "invalid_grant"]> (<["code" := JString "auth.obtain"]> ∅).
Definition error_with_code : Response :=
  response 400 "400 Bad Request" (BodyObject error_with_code_map).

(** Body: error "invalid_grant". *)
Definition error_alone_map : gmap string JSON :=
  <["error" := JString "invalid_grant"]> ∅.



(** Body: total 3. *)
Definition plain_map : gmap string JSON := <["total" := JNumber 3]> ∅.
Definition plain_failure : Response :=
  response 500 "500 Internal Server Error" (BodyObject plain_map).


(** Body: error true, and nothing else; status 200. *)
Definition flag_only_map : gmap string JSON := <["error" := JBool true]> ∅.
Definition flag_only : Response :=
  response 200 "200 OK" (BodyObject flag_only_map).

(** A token response and the three bootstrap answers. *)
Definition token : loginResponse :=
  {| lr_AccessToken := "at-1"; lr_RefreshToken := "rt-1"; lr_ExpiresIn := 300;
     lr_TokenType := "Bearer"; lr_Scope := "offline_access";
     lr_Country := "DE"; lr_AccountID := "acc-1" |}.

Definition index_answer : Response :=
  response 200 "200 OK"
    (BodyObject
       (<["cms" := JObject (<["bucket" := JString "/DE/M3/crunchyroll"]>
                              (<["policy" := JString "pol"]>
                                 (<["signature" := JString "sig"]>
                                    (<["key_pair_id" := JString "kp"]> ∅))))]> ∅)).

Definition me_answer : Response :=
  response 200 "200 OK" (BodyObject (<["external_id" := JString "ext-1"]> ∅)).

Definition profile_answer : Response :=
  response 200 "200 OK" (BodyObject (<["maturity_rating" := JString "M3"]> ∅)).

Definition not_found : Response := response 404 "404 Not Found" BodyEmpty.

(** Answers the three bootstrap endpoints, and 404 elsewhere. *)
Definition bootstrap_server : list Request -> Request -> DoResult :=
  fun _ req =>
    if String.eqb (URL req) index_endpoint then DoResp index_answer
    else if String.eqb (URL req) me_endpoint then DoResp me_answer
    else if String.eqb (URL req) profile_endpoint then DoResp profile_answer
    else DoResp not_found.

Definition bearer (endpoint : string) : Request :=
  Header_Add "Authorization" "Bearer at-1" (NewRequest "GET" endpoint None).

Definition session : Crunchyroll :=
  {| Locale := "en-US"; RefreshToken := "rt-1"; cache := true;
     config := {| TokenType := "Bearer"; AccessToken := "at-1";
                  Bucket := "DE/M3/crunchyroll"; CountryCode := "DE";
                  Premium := true; Channel := ""; Policy := "pol";
                  Signature := "sig"; KeyPairID := "kp"; AccountID := "acc-1";
                  ExternalID := "ext-1"; MaturityRating := "M3" |} |}.

(** The token endpoint of the cookie-derived tokens: 400 for the
    refresh_token grant, the token body for the cookie grant; the
    bootstrap endpoints as above. *)
Definition token_answer : Response :=
  response 200 "200 OK" (BodyObject (<["access_token" := JString "at-1"]> ∅)).

Definition cookie_only_server : list Request -> Request -> DoResult :=
  fun h req =>
    if String.eqb (URL req) token_endpoint then
      match Form req with
      | Some form =>
          if decide (form !! "grant_type" = Some "etp_rt_cookie")
          then DoResp token_answer
          else DoResp error_with_code
      | None => DoResp error_with_code
      end
    else bootstrap_server h req.

Definition decode_token : body -> loginResponse := fun _ => token.

(** Streams, formats and an episode. *)
Definition raw : Stream :=
  {| StreamID := "raw"; HardsubLocale := ""; AudioLocale := "ja-JP"; Subtitles := [] |}.

Definition german : Stream :=
  {| StreamID := "hard-de"; HardsubLocale := "de-DE"; AudioLocale := "ja-JP";
     Subtitles := [] |}.

Definition soft : Stream :=
  {| StreamID := "soft"; HardsubLocale := "en-US"; AudioLocale := "ja-JP";
     Subtitles := [{| SubtitleLocale := "en-US" |}; {| SubtitleLocale := "de-DE" |}] |}.

Definition f360 : Format := {| FormatID := "a"; Resolution := "640x360" |}.
Definition f720 : Format := {| FormatID := "b"; Resolution := "1280x720" |}.
Definition f1080 : Format := {| FormatID := "c"; Resolution := "1920x1080" |}.
Definition f_odd : Format := {| FormatID := "e"; Resolution := "abc" |}.

Definition episode : Episode.t :=
  {| Episode.ID := "ep-1"; Episode.StreamID := "vid-1"; Episode.children := None |}.

(** [fromVideoStreams] that always answers with the streams [l]. *)
Definition stream_source (l : list Stream) : Crunchyroll -> string -> M (slice Stream) :=
  fun _ _ => ret (Some l).

(** [fromVideoStreams] that answers with [l] and leaves a trace of
    the fetch in the history. *)
Definition traced_stream_source (l : list Stream)
  : Crunchyroll -> string -> M (slice Stream) :=
  fun _ endpoint h => (Ok (Some l), h ++ [NewRequest "GET" endpoint None]).

(** Seasons are stood for by their titles. *)
Definition decode_title (item : JSON) : res string :=
  match item with
  | JString title => Ok title
  | _ => Err (ErrorString "cannot decode season")
  end.

Definition seasons_answer : Response :=
  response 200 "200 OK"
    (BodyObject (<["items" := JArray [JString "Season 1"; JString "Season 2"]]> ∅)).

Definition series : Series.t string :=
  {| Series.ID := "series-1"; Series.children := None |}.

Definition movie : Movie.t string :=
  {| Movie.ID := "movie-1"; Movie.children := None |}.

(** [Formats] that answers with [l] for the stream called [id] and
    fails for every other stream. *)
Definition formats_of (id : string) (l : list Format) : Stream -> M (slice Format) :=
  fun s =>
    if String.eqb (StreamID s) id then ret (Some l)
    else fail (ErrorString "formats of another stream requested").

End Sample.

(* ===================================================================== *)
(** ** The other entry points of the session source                       *)
(* ===================================================================== *)

Definition StatusOK : Z := 200.

(** The endpoint of [LoginWithSessionID]. *)
Definition start_session_endpoint (sessionID : string) : string :=
  "https://api.crunchyroll.com/start_session.0.json?session_id=" +:+ sessionID.

(** The loop over [resp.Cookies()] in [LoginWithSessionID]: the value
    of the first cookie named etp_rt; [etpRt] stays empty without one. *)
Fixpoint etp_rt_cookie (cookies : list Cookie) : string :=
  match cookies with
  | [] => ""
  | cookie :: rest =>
      if String.eqb (Name cookie) "etp_rt" then Value cookie
      else etp_rt_cookie rest
  end.

(** [isError, ok := jsonBody["error"]; ok && isError.(bool)]: the
    assertion is unchecked and runs whenever the key is present. *)
Definition error_flag (jsonBody : gmap string JSON) : res bool :=
  match jsonBody !! "error" with
  | None => Ok false
  | Some (JBool b) => Ok b
  | Some _ => Panic "interface conversion: interface {} is not bool"
  end.

(** Bodies in which [request] finds no error report: nothing at all,
    [null], or an object of [Documented.unmatched]. *)
Definition quiet (b : body) : bool :=
  match b with
  | BodyEmpty | BodyNull => true
  | BodyInvalid _ => false
  | BodyObject m => Documented.unmatched m
  end.

(** A first context element that the context branch of [request] can
    read: an object with a string "field" and a string "message" or
    else a string "code". *)
Definition readable_entry (first : JSON) : bool :=
  match first with
  | JObject errField =>
      match Documented.field_code errField, as_string (errField !! "field") with
      | Some _, Some _ => true
      | _, _ => false
      end
  | _ => false
  end.

(** The request [requestFull] sends for a GET of [endpoint] with the
    token of [loginResp]. *)
Definition bearer_request (loginResp : loginResponse) (endpoint : string) : Request :=
  Header_Add "Authorization"
    (lr_TokenType loginResp +:+ " " +:+ lr_AccessToken loginResp)
    (NewRequest "GET" endpoint None).

Section Entry.

Variable Net : list Request -> Request -> DoResult.
Variable NewRequest_error : string -> string -> option string.
Variable decode_loginResponse : body -> loginResponse.

(** [json.NewDecoder(resp.Body).Decode(&jsonBody)] into a nil map, as
    [LoginWithSessionID] runs it on a body that has not gone through
    [request]: the error text, or the map left in [jsonBody]. *)
Variable Decoder_Decode : body -> string + gmap string JSON.

(** The text [fmt] prints for a map entry under the verb s. *)
Variable Sprint : option JSON -> string.

(** The token request of [LoginWithCredentials]. *)
Definition credentials_request (user password : string) : Request :=
  let values : gmap string string :=
    <["scope" := "offline_access"]>
      (<["grant_type" := "password"]>
         (<["password" := password]> (<["username" := user]> ∅))) in
  Header_Set "Content-Type" "application/x-www-form-urlencoded"
    (Header_Set "Authorization" basic_auth_A
       (NewRequest "POST" token_endpoint (Some values))).

(** [LoginWithCredentials]. *)
Definition LoginWithCredentials (user password locale : string) : M Crunchyroll :=
  match NewRequest_error "POST" token_endpoint with
  | Some e => fail (ErrorString e)
  | None =>
      call resp <- request Net (credentials_request user password) ;;
      postLogin Net NewRequest_error (decode_loginResponse (Body resp)) locale
  end.

(** [client.Get(endpoint)]: a plain GET that does not go through
    [request]; the response is handed back whatever its status. *)
Definition client_Get (endpoint : string) : M Response :=
  match NewRequest_error "GET" endpoint with
  | Some e => fail (ErrorString e)
  | None =>
      fun h =>
        (match Net h (NewRequest "GET" endpoint None) with
         | DoFail msg => Err (TransportError msg)
         | DoResp resp => Ok resp
         end,
         h ++ [NewRequest "GET" endpoint None])
  end.

(** [LoginWithSessionID]. *)
Definition LoginWithSessionID (sessionID locale : string) : M Crunchyroll :=
  call resp <- client_Get (start_session_endpoint sessionID) ;;
  if negb (StatusCode resp =? StatusOK)%Z then
    fail (ErrorString ("failed to start session: " +:+ Status resp))
  else
    match Decoder_Decode (Body resp) with
    | inl e =>
        fail (ErrorString
                ("failed to parse start session with session id response: " +:+ e))
    | inr jsonBody =>
        call isError <- lift (error_flag jsonBody) ;;
        if isError then
          call message <- lift (must_string (jsonBody !! "message")) ;;
          fail (ErrorString ("invalid session id (" +:+ message +:+ "): "
                             +:+ Sprint (jsonBody !! "code")))
        else
          LoginWithRefreshToken Net NewRequest_error decode_loginResponse
            (etp_rt_cookie (Cookies resp)) locale
    end.

End Entry.

(* ===================================================================== *)
(** ** More of the episode source, and the sorting helpers                *)
(* ===================================================================== *)

(** [AudioLocale] of an episode: [streams[0].AudioLocale]. *)
Definition Episode_AudioLocale
    (fromVideoStreams : Crunchyroll -> string -> M (slice Stream))
    (c : Crunchyroll) (e : Episode.t) : M (string * Episode.t) :=
  call '(streams, e) <- Episode.Streams fromVideoStreams c e ;;
  call first <- lift (index (elems streams) 0) ;;
  ret (AudioLocale first, e).

(** [FormatsByResolution.Less(i, j)]. *)
Definition FormatsByResolution_Less (fbr : list Format) (i j : nat) : res bool :=
  match index fbr i with
  | Ok fi =>
      match Episode.resolution_sum (Resolution fi) with
      | Ok iRes =>
          match index fbr j with
          | Ok fj =>
              match Episode.resolution_sum (Resolution fj) with
              | Ok jRes => Ok (iRes <? jRes)%Z
              | Err e => Err e
              | Panic why => Panic why
              end
          | Err e => Err e
          | Panic why => Panic why
          end
      | Err e => Err e
      | Panic why => Panic why
      end
  | Err e => Err e
  | Panic why => Panic why
  end.

Module Sort.

Section BySeason.

(** The episode record, through the three fields the function reads. *)
Variable E : Type.
Variable SeriesID : E -> string.
Variable SeasonNumber : E -> Z.
Variable EpisodeNumber : E -> Z.

(** The order in which [range sortMap] visits the outer map; Go leaves
    it unspecified. *)
Variable range : gmap string (gmap Z (list E)) -> list (string * gmap Z (list E)).

(** [sort.Sort(EpisodesByNumber(es))]: not a stable sort. *)
Variable sort_Sort : list E -> list E.

(** [EpisodesByNumber.Less] on two episodes. *)
Definition EpisodesByNumber_Less (a b : E) : bool :=
  (EpisodeNumber a <? EpisodeNumber b)%Z.

(** One round of the first loop: both maps are created on demand and
    the episode is appended to the list of its series and season. *)
Definition file_episode (sortMap : gmap string (gmap Z (list E))) (episode : E)
  : gmap string (gmap Z (list E)) :=
  let series := default ∅ (sortMap !! SeriesID episode) in
  let es := default [] (series !! SeasonNumber episode) in
  <[SeriesID episode := <[SeasonNumber episode := es ++ [episode]]> series]> sortMap.

Definition group_map (episodes : list E) : gmap string (gmap Z (list E)) :=
  fold_left file_episode episodes ∅.

(** The keys of one series after [sort.Ints]: whatever the order in
    which [range series] yields them, they end up ascending. *)
Definition season_keys (series : gmap Z (list E)) : list Z :=
  merge_sort Z.le (map fst (map_to_list series)).

(** The inner loop over the sorted keys. *)
Definition emit_series (eps : list (list E)) (series : gmap Z (list E))
  : list (list E) :=
  fold_left
    (fun eps key =>
       let es := default [] (series !! key) in
       if (0 <? length es)%nat then eps ++ [sort_Sort es] else eps)
    (season_keys series) eps.

(** [SortEpisodesBySeason]. *)
Definition SortEpisodesBySeason (episodes : list E) : list (list E) :=
  fold_left (fun eps entry => emit_series eps (snd entry))
            (range (group_map episodes)) [].

(** Notions used to state what the function returns. *)

Definition in_season (sid : string) (sn : Z) (e : E) : Prop :=
  SeriesID e = sid /\ SeasonNumber e = sn.

#[export] Instance in_season_dec sid sn e : Decision (in_season sid sn e).
Proof. unfold in_season. apply _. Defined.

Definition number_le (a b : E) : Prop := (EpisodeNumber a <= EpisodeNumber b)%Z.

(** Whenever an episode of the first group and one of the second
    belong to the same series, the first has the smaller season. *)
Definition season_before (g1 g2 : list E) : Prop :=
  forall e1 e2, In e1 g1 -> In e2 g2 -> SeriesID e1 = SeriesID e2 ->
                (SeasonNumber e1 < SeasonNumber e2)%Z.

(** The list filed under a series and a season. *)
Definition filed (m : gmap string (gmap Z (list E))) (sid : string) (sn : Z) : list E :=
  default [] (default ∅ (m !! sid) !! sn).

(** No list in the map is empty. *)
Definition no_empty (m : gmap string (gmap Z (list E))) : Prop :=
  forall sid series sn es, m !! sid = Some series -> series !! sn = Some es -> es <> [].

(** The groups the inner loop appends for the keys [keys]. *)
Definition groups (series : gmap Z (list E)) (keys : list Z) : list (list E) :=
  flat_map
    (fun key =>
       let es := default [] (series !! key) in
       if (0 <? length es)%nat then [sort_Sort es] else [])
    keys.

(** Everything filed in one series, and in the whole map. *)
Definition flat1 (series : gmap Z (list E)) : list E :=
  concat (map snd (map_to_list series)).

Definition flat2 (m : gmap string (gmap Z (list E))) : list E :=
  concat (map (fun entry => flat1 (snd entry)) (map_to_list m)).

End BySeason.

End Sort.

(* ===================================================================== *)
(** ** More concrete inputs                                               *)
(* ===================================================================== *)

Module Sample2.

(** A decoder for bodies that [json.Unmarshal] would accept as well. *)
Definition decode_map (b : body) : string + gmap string JSON :=
  match b with
  | BodyObject m => inr m
  | BodyNull => inr ∅
  | BodyEmpty => inl "EOF"
  | BodyInvalid e => inl e
  end.

Definition sprint (v : option JSON) : string :=
  match v with
  | Some (JString s) => s
  | _ => "%!s(<nil>)"
  end.

(** The legacy endpoint answering with an etp_rt cookie. *)
Definition start_session_answer : Response :=
  {| StatusCode := 200; Status := "200 OK";
     Body := BodyObject (<["error" := JBool false]> ∅);
     Cookies := [{| Name := "session_id"; Value := "sid-1" |};
                 {| Name := "etp_rt"; Value := "rt-1" |};
                 {| Name := "etp_rt"; Value := "rt-2" |}] |}.

(** The same without any cookie. *)
Definition start_session_bare : Response :=
  {| StatusCode := 200; Status := "200 OK";
     Body := BodyObject ∅; Cookies := [] |}.

(** The legacy endpoint rejecting the session id. *)
Definition start_session_rejected : Response :=
  {| StatusCode := 200; Status := "200 OK";
     Body := BodyObject (<["error" := JBool true]>
                           (<["message" := JString "Invalid session"]>
                              (<["code" := JString "bad_session"]> ∅)));
     Cookies := [] |}.

(** The legacy endpoint with the error as a text. *)
Definition start_session_text_error : Response :=
  {| StatusCode := 200; Status := "200 OK";
     Body := BodyObject (<["error" := JString "bad_session"]> ∅);
     Cookies := [] |}.

(** Session start on the legacy host, then the servers of [Sample]. *)
Definition with_start_session (answer : Response)
    (rest : list Request -> Request -> DoResult) : list Request -> Request -> DoResult :=
  fun h req =>
    if String.eqb (URL req) (start_session_endpoint "sid-1") then DoResp answer
    else rest h req.

(** A token endpoint that rejects every grant with 401. *)
Definition unauthorized : Response :=
  Sample.response 401 "401 Unauthorized" (BodyObject Sample.error_alone_map).

(** A token endpoint that answers 400 to every grant. *)
Definition always_bad_request : list Request -> Request -> DoResult :=
  Sample.always Sample.error_with_code.

(** Episodes as (series, season, number) triples. *)
Definition ep (series : string) (season number : Z) : string * Z * Z :=
  (series, season, number).
Definition ep_series (e : string * Z * Z) : string := fst (fst e).
Definition ep_season (e : string * Z * Z) : Z := snd (fst e).
Definition ep_number (e : string * Z * Z) : Z := snd e.

Definition by_number (l : list (string * Z * Z)) : list (string * Z * Z) :=
  @merge_sort _ (fun a b => (ep_number a <= ep_number b)%Z)
    (fun a b => decide (ep_number a <= ep_number b)%Z) l.

Definition in_map_order (m : gmap string (gmap Z (list (string * Z * Z))))
  : list (string * gmap Z (list (string * Z * Z))) := map_to_list m.

Definition shelf : list (string * Z * Z) :=
  [ep "B" 1 2; ep "A" 2 1; ep "A" 1 3; ep "B" 1 1; ep "A" 1 1].

End Sample2.
(* ===================================================================== *)
(** ** Properties of the request normaliser                               *)
(* ===================================================================== *)

Section NormalizerFacts.

Import Normalizer.

Lemma status_line_never_panics resp why : status_line resp <> Panic why.
Proof. unfold status_line. destruct (400 <=? StatusCode resp)%Z; discriminate. Qed.


Lemma status_line_low resp :
  (StatusCode resp < 400)%Z -> status_line resp = Ok resp.
Proof.
  intros H. unfold status_line.
  destruct (400 <=? StatusCode resp)%Z eqn:E; [lia | reflexivity].
Qed.

Lemma as_string_Some (v : option JSON) s :
  as_string v = Some s <-> v = Some (JString s).
Proof.
  split.
  - destruct v as [[]|]; simpl; intros; congruence.
  - intros ->. reflexivity.
Qed.

(** An unparsable body is always reported, whatever the status. *)
Lemma classify_invalid resp e :
  Body resp = BodyInvalid e ->
  classify resp = Err (RequestError resp ("invalid json response: " +:+ e)).
Proof. intros H. unfold classify. rewrite H. reflexivity. Qed.

(** With an "error" key in the body no panic is possible. *)
Lemma classify_error_key_total resp m v why :
  Body resp = BodyObject m -> m !! "error" = Some v ->
  classify resp <> Panic why.
Proof.
  intros Hb He. unfold classify. rewrite Hb, He.
  destruct v as [|[]|n|s|l|o];
    repeat match goal with
           | |- context [as_string ?x] => destruct (as_string x)
           end;
    try discriminate; apply status_line_never_panics.
Qed.

(** The panics of [classify] all come from the context branch. *)
Lemma classify_panic_inv resp why :
  classify resp = Panic why ->
  exists m first rest,
    Body resp = BodyObject m /\ m !! "error" = None /\ is_Some (m !! "code")
    /\ m !! "context" = Some (JArray (first :: rest))
    /\ context_error resp first = Panic why.
Proof.
  unfold classify. destruct (Body resp) as [|e| |m] eqn:Hb;
    try (intros H; exfalso; revert H; first [apply status_line_never_panics | discriminate]).
  destruct (m !! "error") as [v|] eqn:He.
  - intros H. exfalso. revert H.
    destruct v as [|[]|n|s|l|o];
      repeat match goal with
             | |- context [as_string ?x] => destruct (as_string x)
             end;
      try discriminate; apply status_line_never_panics.
  - destruct (m !! "code") as [c|] eqn:Hc;
      [| intros H; exfalso; revert H; apply status_line_never_panics].
    destruct (m !! "context") as [[| | | |[|first rest]|]|] eqn:Hx;
      try (destruct (as_string (m !! "message"));
           intros H; exfalso; revert H;
           first [apply status_line_never_panics | discriminate]).
    intros H. exists m, first, rest. repeat split; eauto.
Qed.

End NormalizerFacts.

(* ===================================================================== *)
(** ** Claims about the request normaliser                                *)
(* ===================================================================== *)

(** C2 (defect in the code).  An unparsable body is always turned into
    a [RequestError] "invalid json response: ...", and a body with an
    "error" entry can never make the normaliser panic.  But a body with
    "code" and a non-empty "context" list makes [request] panic, instead
    of falling back to the status line, as soon as the first element of
    the list is not an object, or has neither a string "message" nor a
    string "code", or has no string "field". *)
Theorem C2_normalizer_panics_on_unrecognised_context :
  (forall sc st e ck,
      let resp := {| StatusCode := sc; Status := st; Body := BodyInvalid e; Cookies := ck |} in
      Normalizer.classify resp
      = Err (RequestError resp ("invalid json response: " +:+ e)))
  /\ (forall h req,
         request (Sample.always Sample.context_not_object) req h
         = (Panic "interface conversion: interface {} is not map[string]interface {}",
            h ++ [req]))
  /\ (forall h req,
         request (Sample.always Sample.context_without_strings) req h
         = (Panic "interface conversion: interface {} is not string", h ++ [req]))
  /\ (forall h req,
         request (Sample.always Sample.context_without_field) req h
         = (Panic "interface conversion: interface {} is not string", h ++ [req])).
Proof.
  split; [| split; [| split]].
  - intros sc st e ck resp. apply classify_invalid. reflexivity.
  - intros h req. reflexivity.
  - intros h req. reflexivity.
  - intros h req. reflexivity.
Qed.




(** C10.  A body that decodes to an object whose "error" entry is true
    and that has no string "message", on a response with a status below
    400, is not classified as an error: [request] returns the response
    and a nil error. *)
Theorem C10_true_flag_without_message_is_dropped
    (Net : list Request -> Request -> DoResult)
    (h : list Request) (req : Request) (resp : Response) (m : gmap string JSON) :
  Net h req = DoResp resp ->
  Body resp = BodyObject m ->
  m !! "error" = Some (JBool true) ->
  as_string (m !! "message") = None ->
  (StatusCode resp < 400)%Z ->
  request Net req h = (Ok resp, h ++ [req]).
Proof.
  intros Hnet Hb He Hm Hs.
  unfold request, Normalizer.request_on. rewrite Hnet.
  unfold Normalizer.classify. rewrite Hb, He, Hm.
  rewrite (status_line_low resp Hs). reflexivity.
Qed.

Lemma C10_true_flag_without_message_witness :
  request (Sample.always Sample.flag_only) Sample.a_request []
  = (Ok Sample.flag_only, [Sample.a_request]).
Proof.
  apply (C10_true_flag_without_message_is_dropped
           (Sample.always Sample.flag_only) [] Sample.a_request
           Sample.flag_only Sample.flag_only_map);
    first [reflexivity | simpl; lia].
Defined.

(* ===================================================================== *)
(** ** Properties of the login paths                                      *)
(* ===================================================================== *)

Section LoginFacts.

Variable Net : list Request -> Request -> DoResult.
Variable NewRequest_error : string -> string -> option string.

(** An authenticated request reads only the token type and the access
    token of the session. *)
Lemma Crunchyroll_request_token c c' endpoint method :
  TokenType (config c) = TokenType (config c') ->
  AccessToken (config c) = AccessToken (config c') ->
  Crunchyroll_request Net NewRequest_error c endpoint method
  = Crunchyroll_request Net NewRequest_error c' endpoint method.
Proof.
  intros Ht Ha. unfold Crunchyroll_request, requestFull.
  rewrite Ht, Ha. reflexivity.
Qed.

(** A request extends the history by itself, whatever the answer. *)
Lemma request_history req h r h' :
  request Net req h = (r, h') -> h' = h ++ [req].
Proof. unfold request. intros H. inversion H. reflexivity. Qed.





Lemma must_array_no_error v e : must_array v <> Err e.
Proof. destruct v as [[]|]; discriminate. Qed.

End LoginFacts.

(** Case analysis of [postLogin]: every call is brought back to the
    session it started from, then the outcome of each step is split. *)
Ltac same_session lr locale :=
  repeat match goal with
  | |- context [Crunchyroll_request ?N ?E (with_config ?f ?c) ?u ?m] =>
      rewrite (Crunchyroll_request_token N E (with_config f c)
                 (new_session lr locale) u m eq_refl eq_refl)
  end.

Ltac postLogin_cases lr locale :=
  cbv beta iota zeta delta [postLogin bootstrap_call bind lift ret];
  repeat (same_session lr locale;
          match goal with
          | |- context [Crunchyroll_request ?N ?R (new_session lr locale) ?u ?m ?h] =>
              let E := fresh "Hcall" in
              destruct (Crunchyroll_request N R (new_session lr locale) u m h)
                as [[?r|?e|?w] ?h] eqn:E
          | |- context [match must_object ?x with _ => _ end] =>
              let E := fresh "Hcms" in destruct (must_object x) eqn:E
          | |- context [match must_string ?x with _ => _ end] =>
              let E := fresh "Hstr" in destruct (must_string x) eqn:E
          end).







Section RefreshFacts.

Variable Net : list Request -> Request -> DoResult.
Variable NRE : string -> string -> option string.
Hypothesis token_endpoint_parses : NRE "POST" token_endpoint = None.

(** What the fallback request carries: the cookie grant, no
    refresh_token parameter, the second Basic-auth header, and the
    token as the cookie etp_rt. *)
Lemma cookie_request_shape tok :
  Method (cookie_request tok) = "POST"
  /\ URL (cookie_request tok) = token_endpoint
  /\ (exists form, Form (cookie_request tok) = Some form
                   /\ form !! "grant_type" = Some "etp_rt_cookie"
                   /\ form !! "scope" = Some "offline_access"
                   /\ form !! "refresh_token" = None)
  /\ Header (cookie_request tok) !! "Authorization" = Some [basic_auth_B]
  /\ ReqCookies (cookie_request tok) = [{| Name := "etp_rt"; Value := tok |}].
Proof.
  repeat split; try reflexivity.
  eexists. repeat split; reflexivity.
Qed.

Lemma refresh_request_shape tok :
  (exists form, Form (refresh_request tok) = Some form
                /\ form !! "grant_type" = Some "refresh_token"
                /\ form !! "refresh_token" = Some tok)
  /\ Header (refresh_request tok) !! "Authorization" = Some [basic_auth_A]
  /\ ReqCookies (refresh_request tok) = [].
Proof.
  repeat split; try reflexivity.
  eexists. repeat split; reflexivity.
Qed.

(** A 400 on the first exchange: one more request is sent, the cookie
    one, and its outcome (success or error) is the outcome. *)
Lemma refresh_exchange_bad_request tok h r msg :
  request Net (refresh_request tok) h = (Err (RequestError r msg), h ++ [refresh_request tok]) ->
  StatusCode r = StatusBadRequest ->
  refresh_exchange Net NRE tok h
  = request Net (cookie_request tok) (h ++ [refresh_request tok])
  /\ snd (refresh_exchange Net NRE tok h)
     = h ++ [refresh_request tok; cookie_request tok].
Proof.
  intros H Hs. unfold refresh_exchange.
  rewrite token_endpoint_parses, H, Hs. simpl. split; [reflexivity |].
  unfold request. simpl. rewrite <- app_assoc. reflexivity.
Qed.

(** A classified failure with any other status is handed back, and
    nothing more is sent. *)
Lemma refresh_exchange_other_status tok h r msg :
  request Net (refresh_request tok) h = (Err (RequestError r msg), h ++ [refresh_request tok]) ->
  StatusCode r <> StatusBadRequest ->
  refresh_exchange Net NRE tok h
  = (Err (RequestError r msg), h ++ [refresh_request tok]).
Proof.
  intros H Hs. unfold refresh_exchange.
  rewrite token_endpoint_parses, H.
  destruct (StatusCode r =? StatusBadRequest)%Z eqn:E; [| reflexivity].
  apply Z.eqb_eq in E. contradiction.
Qed.

(** A success needs no second request. *)
Lemma refresh_exchange_success tok h resp :
  request Net (refresh_request tok) h = (Ok resp, h ++ [refresh_request tok]) ->
  refresh_exchange Net NRE tok h = (Ok resp, h ++ [refresh_request tok]).
Proof.
  intros H. unfold refresh_exchange.
  rewrite token_endpoint_parses, H. reflexivity.
Qed.

End RefreshFacts.

(** C3 (defect in the code).  When the first token request fails in
    the transport, so that the error is not a [RequestError], the
    one-result type assertion on it panics: [LoginWithRefreshToken]
    neither returns that error to the caller nor tries the fallback. *)
Theorem C3_transport_failure_panics
    (Net : list Request -> Request -> DoResult)
    (NRE : string -> string -> option string)
    (decode : body -> loginResponse)
    (tok locale msg : string) (h : list Request) :
  NRE "POST" token_endpoint = None ->
  Net h (refresh_request tok) = DoFail msg ->
  LoginWithRefreshToken Net NRE decode tok locale h
  = (Panic "interface conversion: error is not *crunchyroll.RequestError",
     h ++ [refresh_request tok]).
Proof.
  intros Hparse Hnet.
  unfold LoginWithRefreshToken, bind, refresh_exchange.
  rewrite Hparse. unfold request, Normalizer.request_on.
  rewrite Hnet. reflexivity.
Qed.

Lemma C3_transport_failure_panics_witness :
  LoginWithRefreshToken Sample.unreachable Sample.no_NewRequest_error
    Sample.decode_token "rt-1" "en-US" []
  = (Panic "interface conversion: error is not *crunchyroll.RequestError",
     [refresh_request "rt-1"]).
Proof.
  apply (C3_transport_failure_panics Sample.unreachable Sample.no_NewRequest_error
           Sample.decode_token "rt-1" "en-US" "dial tcp: connection refused" []);
    reflexivity.
Defined.

(** The fallback at work: the refresh_token grant is answered with 400,
    the cookie grant succeeds, and the login completes after exactly
    two token requests and the three bootstrap calls. *)
Example login_through_cookie_grant :
  LoginWithRefreshToken Sample.cookie_only_server Sample.no_NewRequest_error
    Sample.decode_token "rt-1" "en-US" []
  = (Ok Sample.session,
     [refresh_request "rt-1"; cookie_request "rt-1";
      Sample.bearer index_endpoint; Sample.bearer me_endpoint;
      Sample.bearer profile_endpoint]).
Proof. vm_compute. reflexivity. Qed.

(* ===================================================================== *)
(** ** Properties of the stream selection                                 *)
(* ===================================================================== *)

Section StreamSelection.

Import Episode Rules.

Lemma existsb_track subtitle (s : Stream) :
  existsb (fun t => String.eqb (SubtitleLocale t) subtitle) (Subtitles s) = true
  <-> has_track subtitle s.
Proof.
  unfold has_track. rewrite existsb_exists. split.
  - intros (t & Hin & Heq). exists t. split; [exact Hin |].
    apply String.eqb_eq. exact Heq.
  - intros (t & Hin & Heq). exists t. split; [exact Hin |].
    apply String.eqb_eq. exact Heq.
Qed.

(** With hardsub wanted the test is the hardsub rule. *)
Lemma stream_matches_hard subtitle s :
  stream_matches subtitle true s = true <-> hard_match subtitle s.
Proof.
  unfold stream_matches, hard_match. simpl.
  destruct (String.eqb (HardsubLocale s) subtitle) eqn:E1; simpl.
  - apply String.eqb_eq in E1. split; [intros _; left; exact E1 | reflexivity].
  - apply String.eqb_neq in E1.
    destruct (String.eqb (HardsubLocale s) "") eqn:E2; simpl.
    + apply String.eqb_eq in E2.
      destruct (String.eqb subtitle "") eqn:E3.
      * apply String.eqb_eq in E3. exfalso. apply E1. congruence.
      * apply String.eqb_neq in E3. split; [discriminate |].
        intros [H | [_ H]]; contradiction.
    + apply String.eqb_neq in E2. split; [discriminate |].
      intros [H | [H _]]; contradiction.
Qed.

(** Without hardsub the test is the track rule or the "no hardsub, no
    request" rule. *)
Lemma stream_matches_soft subtitle s :
  stream_matches subtitle false s = true <-> soft_match subtitle s.
Proof.
  unfold stream_matches, soft_match. simpl.
  destruct (String.eqb (HardsubLocale s) "" && String.eqb subtitle "") eqn:E.
  - apply andb_prop in E. destruct E as [E1 E2].
    apply String.eqb_eq in E1, E2. split; [intros _; left; split; assumption | reflexivity].
  - rewrite existsb_track. split; [intros H; right; exact H |].
    intros [[H1 H2] | H]; [| exact H].
    apply String.eqb_eq in H1, H2. rewrite H1, H2 in E. discriminate.
Qed.

(** The loop stops at the first stream that passes the test. *)
Lemma find_stream_Some subtitle hardsub streams s :
  find_stream subtitle hardsub streams = Some s
  <-> first_such (fun x => stream_matches subtitle hardsub x = true) streams s.
Proof.
  unfold first_such. induction streams as [|x rest IH]; simpl.
  - split; [discriminate |]. intros (pre & post & H & _). destruct pre; discriminate.
  - destruct (stream_matches subtitle hardsub x) eqn:E.
    + split.
      * intros H. inversion H; subst. exists [], rest. repeat split; [exact E | constructor].
      * intros (pre & post & H & Hs & Hpre). destruct pre as [|y pre].
        -- simpl in H. inversion H. reflexivity.
        -- simpl in H. inversion H; subst. inversion Hpre; subst. congruence.
    + rewrite IH. split.
      * intros (pre & post & H & Hs & Hpre). exists (x :: pre), post.
        subst. repeat split; [exact Hs |]. constructor; [congruence | exact Hpre].
      * intros (pre & post & H & Hs & Hpre). destruct pre as [|y pre].
        -- simpl in H. inversion H; subst. congruence.
        -- simpl in H. inversion H; subst. inversion Hpre; subst.
           exists pre, post. repeat split; assumption.
Qed.

Lemma find_stream_None subtitle hardsub streams :
  find_stream subtitle hardsub streams = None
  <-> Forall (fun x => stream_matches subtitle hardsub x = false) streams.
Proof.
  induction streams as [|x rest IH]; simpl.
  - split; [constructor | reflexivity].
  - destruct (stream_matches subtitle hardsub x) eqn:E.
    + split; [discriminate |]. intros H. inversion H; subst. congruence.
    + rewrite IH. split; [intros H; constructor; assumption |].
      intros H. inversion H; assumption.
Qed.

Lemma first_such_equiv {A} (P Q : A -> Prop) l s :
  (forall x, P x <-> Q x) -> first_such P l s <-> first_such Q l s.
Proof.
  intros HPQ. unfold first_such. split.
  - intros (pre & post & H & Hs & Hpre). exists pre, post.
    repeat split; [exact H | apply HPQ; exact Hs |].
    eapply List.Forall_impl; [| exact Hpre]. intros x Hx HQ. apply Hx, HPQ, HQ.
  - intros (pre & post & H & Hs & Hpre). exists pre, post.
    repeat split; [exact H | apply HPQ; exact Hs |].
    eapply List.Forall_impl; [| exact Hpre]. intros x Hx HP. apply Hx, HPQ, HP.
Qed.

Variable fromVideoStreams : Crunchyroll -> string -> M (slice Stream).

(** [select_stream] once the stream list is known. *)
Lemma select_stream_unfold c e subtitle hardsub h streams e' h' :
  Streams fromVideoStreams c e h = (Ok (streams, e'), h') ->
  select_stream fromVideoStreams c e subtitle hardsub h
  = match find_stream subtitle hardsub (elems streams) with
    | Some s => (Ok (s, e'), h')
    | None => (Err (ErrorString "no matching stream found"), h')
    end.
Proof.
  intros H. unfold select_stream, bind. rewrite H.
  destruct (find_stream subtitle hardsub (elems streams)); reflexivity.
Qed.

(** The selection in terms of a rule [P] equivalent to the test. *)
Lemma select_stream_rule (P : Stream -> Prop) c e subtitle hardsub h streams e' h' :
  (forall x, stream_matches subtitle hardsub x = true <-> P x) ->
  Streams fromVideoStreams c e h = (Ok (streams, e'), h') ->
  (forall s,
      select_stream fromVideoStreams c e subtitle hardsub h = (Ok (s, e'), h')
      <-> first_such P (elems streams) s)
  /\ (select_stream fromVideoStreams c e subtitle hardsub h
      = (Err (ErrorString "no matching stream found"), h')
      <-> Forall (fun x => ~ P x) (elems streams)).
Proof.
  intros HP H. rewrite (select_stream_unfold _ _ _ _ _ _ _ _ H). split.
  - intros s. rewrite <- (first_such_equiv _ _ _ _ HP), <- find_stream_Some.
    destruct (find_stream subtitle hardsub (elems streams)).
    + split; intros E; inversion E; reflexivity.
    + split; discriminate.
  - destruct (find_stream subtitle hardsub (elems streams)) eqn:E.
    + split; [discriminate |]. intros HF. exfalso.
      apply find_stream_Some in E. destruct E as (pre & post & Hl & Hs & _).
      rewrite Hl in HF. apply Forall_app in HF. destruct HF as [_ HF].
      inversion HF; subst. apply HP in Hs. contradiction.
    + apply find_stream_None in E. split; [intros _ | reflexivity].
      eapply List.Forall_impl; [| exact E]. intros x Hx HPx. apply HP in HPx. congruence.
Qed.

End StreamSelection.

(* ===================================================================== *)
(** ** Claims about the stream selection                                  *)
(* ===================================================================== *)

(** C8.  With hardsub wanted, the stream [GetFormat] selects is the
    first one in list order whose hardsub locale equals the requested
    subtitle locale, or whose hardsub locale is empty when the request
    is empty too, and the call fails with "no matching stream found"
    exactly when there is none.  In particular a stream with hardsub
    locale "" passes the test for the request "", and a stream with
    hardsub locale "de-DE" does not and is never selected for it. *)
Theorem C8_hardsub_selection
    (fromVideoStreams : Crunchyroll -> string -> M (slice Stream))
    (c : Crunchyroll) (e : Episode.t) (subtitle : string) (h : list Request)
    (streams : slice Stream) (e' : Episode.t) (h' : list Request) :
  Episode.Streams fromVideoStreams c e h = (Ok (streams, e'), h') ->
  (forall s,
      Episode.select_stream fromVideoStreams c e subtitle true h = (Ok (s, e'), h')
      <-> Rules.first_such (Rules.hard_match subtitle) (elems streams) s)
  /\ (Episode.select_stream fromVideoStreams c e subtitle true h
      = (Err (ErrorString "no matching stream found"), h')
      <-> Forall (fun x => ~ Rules.hard_match subtitle x) (elems streams))
  /\ (forall s, HardsubLocale s = "" -> Episode.stream_matches "" true s = true)
  /\ (forall s, HardsubLocale s = "de-DE" -> Episode.stream_matches "" true s = false)
  /\ (forall s,
         Episode.select_stream fromVideoStreams c e "" true h = (Ok (s, e'), h') ->
         HardsubLocale s = "").
Proof.
  intros H.
  destruct (select_stream_rule fromVideoStreams (Rules.hard_match subtitle)
              c e subtitle true h streams e' h'
              (stream_matches_hard subtitle) H) as [Hsel Hnone].
  split; [exact Hsel | split; [exact Hnone | split; [| split]]].
  - intros s Hs. apply stream_matches_hard. left. exact Hs.
  - intros s Hs. destruct (Episode.stream_matches "" true s) eqn:E; [| reflexivity].
    apply stream_matches_hard in E. destruct E as [E | [E _]]; rewrite Hs in E; discriminate.
  - intros s Hs.
    apply (proj1 (select_stream_rule fromVideoStreams (Rules.hard_match "")
                    c e "" true h streams e' h' (stream_matches_hard "") H)) in Hs.
    destruct Hs as (pre & post & _ & [Hm | [Hm _]] & _); exact Hm.
Qed.

Lemma C8_hardsub_selection_witness :
  Episode.select_stream (Sample.stream_source [Sample.german; Sample.raw])
    Sample.session Sample.episode "" true []
  = (Ok (Sample.raw,
         Episode.set_children (Some [Sample.german; Sample.raw]) Sample.episode), []).
Proof.
  apply (proj1 (C8_hardsub_selection
                  (Sample.stream_source [Sample.german; Sample.raw])
                  Sample.session Sample.episode "" []
                  (Some [Sample.german; Sample.raw])
                  (Episode.set_children (Some [Sample.german; Sample.raw]) Sample.episode)
                  [] eq_refl)).
  exists [Sample.german], []. repeat split.
  - left. reflexivity.
  - constructor; [| constructor].
    intros [Hm | [Hm _]]; discriminate Hm.
Defined.

(** C1, the claim as it is worded, at a concrete call.  The request is
    for no subtitle, without hardsub; the only stream has an empty
    hardsub locale and no subtitle track at all.  It is selected all the
    same, and [GetFormat] answers with one of its formats. *)
Lemma C1_trackless_stream_selected :
  ~ Rules.has_track "" Sample.raw
  /\ Episode.select_stream (Sample.stream_source [Sample.raw])
       Sample.session Sample.episode "" false []
     = (Ok (Sample.raw, Episode.set_children (Some [Sample.raw]) Sample.episode), [])
  /\ Episode.GetFormat (Sample.stream_source [Sample.raw])
       (Sample.formats_of "raw" [Sample.f1080])
       Sample.session Sample.episode "1920x1080" "" false []
     = (Ok (Sample.f1080, Episode.set_children (Some [Sample.raw]) Sample.episode), []).
Proof.
  repeat split.
  intros (t & Hin & _). exact Hin.
Qed.

(** C1 (amended).  Without hardsub, the stream [GetFormat] selects is
    the first one in list order that has an empty hardsub locale while
    the requested subtitle locale is empty too, or has at least one
    subtitle track whose locale equals the requested one; the call
    fails with "no matching stream found" exactly when there is none.
    When the requested subtitle locale is not empty, this is the first
    stream with such a track, and a stream without one is never
    selected, whatever its hardsub locale. *)
Theorem C1_softsub_selection
    (fromVideoStreams : Crunchyroll -> string -> M (slice Stream))
    (c : Crunchyroll) (e : Episode.t) (subtitle : string) (h : list Request)
    (streams : slice Stream) (e' : Episode.t) (h' : list Request) :
  Episode.Streams fromVideoStreams c e h = (Ok (streams, e'), h') ->
  (forall s,
      Episode.select_stream fromVideoStreams c e subtitle false h = (Ok (s, e'), h')
      <-> Rules.first_such (Rules.soft_match subtitle) (elems streams) s)
  /\ (Episode.select_stream fromVideoStreams c e subtitle false h
      = (Err (ErrorString "no matching stream found"), h')
      <-> Forall (fun x => ~ Rules.soft_match subtitle x) (elems streams))
  /\ (subtitle <> "" ->
      forall s,
        Episode.select_stream fromVideoStreams c e subtitle false h = (Ok (s, e'), h')
        <-> Rules.first_such (Rules.has_track subtitle) (elems streams) s).
Proof.
  intros H.
  destruct (select_stream_rule fromVideoStreams (Rules.soft_match subtitle)
              c e subtitle false h streams e' h'
              (stream_matches_soft subtitle) H) as [Hsel Hnone].
  split; [exact Hsel | split; [exact Hnone |]].
  - intros Hne s. rewrite Hsel. apply first_such_equiv.
    intros x. unfold Rules.soft_match. split.
    + intros [[_ Hs] | Ht]; [contradiction | exact Ht].
    + intros Ht. right. exact Ht.
Qed.

Lemma C1_softsub_selection_witness :
  Episode.select_stream (Sample.stream_source [Sample.german; Sample.raw; Sample.soft])
    Sample.session Sample.episode "de-DE" false []
  = (Ok (Sample.soft,
         Episode.set_children (Some [Sample.german; Sample.raw; Sample.soft])
           Sample.episode), []).
Proof.
  apply (proj2 (proj2 (C1_softsub_selection
                  (Sample.stream_source [Sample.german; Sample.raw; Sample.soft])
                  Sample.session Sample.episode "de-DE" []
                  (Some [Sample.german; Sample.raw; Sample.soft])
                  (Episode.set_children (Some [Sample.german; Sample.raw; Sample.soft])
                     Sample.episode)
                  [] eq_refl))).
  - discriminate.
  - exists [Sample.german; Sample.raw], []. repeat split.
    + exists {| SubtitleLocale := "de-DE" |}. split; [right; left; reflexivity | reflexivity].
    + repeat constructor; intros (t & Hin & _); exact Hin.
Defined.

(* ===================================================================== *)
(** ** Properties of the format selection                                 *)
(* ===================================================================== *)

Section FormatSelection.

Import Episode Rules.

(** The readings of [Atoi] that the ranking relies on. *)
Example Atoi_readings :
  Atoi "1920" = (1920, true)%Z
  /\ Atoi "-7" = (-7, true)%Z
  /\ Atoi "+7" = (7, true)%Z
  /\ Atoi "" = (0, false)%Z
  /\ Atoi "12a" = (0, false)%Z
  /\ Atoi "-" = (0, false)%Z
  /\ Atoi "9223372036854775808" = (int_max, false)
  /\ Atoi "-9223372036854775808" = (int_min, true).
Proof. repeat split. Qed.

(** Within the range of [int] the sum is the mathematical one. *)
Lemma int_add_exact x y :
  (int_min <= x + y <= int_max)%Z -> int_add x y = (x + y)%Z.
Proof.
  unfold int_add, wrap, int_min, int_max. intros H.
  rewrite Z.mod_small by lia. lia.
Qed.


Lemma resolution_sum_key r :
  is_Some (cut "x" r) -> resolution_sum r = Ok (key r).
Proof.
  intros [[w h] H]. unfold resolution_sum, key, SplitN2. rewrite H. reflexivity.
Qed.

Lemma resolution_sum_no_x r :
  cut "x" r = None -> resolution_sum r = Panic "index out of range".
Proof.
  intros H. unfold resolution_sum, SplitN2. rewrite H. reflexivity.
Qed.

Lemma resolution_sum_no_error r e : resolution_sum r <> Err e.
Proof.
  destruct (cut "x" r) as [[w h]|] eqn:H.
  - rewrite resolution_sum_key by (rewrite H; eauto). discriminate.
  - rewrite resolution_sum_no_x by exact H. discriminate.
Qed.

Lemma sentinel_has_no_x f :
  has_x f -> Resolution f <> "best" /\ Resolution f <> "worst".
Proof.
  intros [p H]. split; intros E; rewrite E in H; discriminate H.
Qed.

(** *** An exact resolution *)

Lemma pick_format_exact resolution res formats :
  resolution <> "best" -> resolution <> "worst" ->
  Forall (fun f => Resolution f <> resolution) formats ->
  pick_format resolution res formats
  = match res with
    | Some r => Ok r
    | None => Err (ErrorString "no matching resolution found")
    end.
Proof.
  intros Hb Hw. apply String.eqb_neq in Hb, Hw.
  induction formats as [|f rest IH]; intros HF; simpl.
  - reflexivity.
  - rewrite Hb, Hw. simpl. inversion HF; subst.
    destruct (String.eqb (Resolution f) resolution) eqn:E.
    + apply String.eqb_eq in E. contradiction.
    + apply IH. assumption.
Qed.

Lemma pick_format_exact_hit resolution res pre f post :
  resolution <> "best" -> resolution <> "worst" ->
  Forall (fun g => Resolution g <> resolution) pre ->
  Resolution f = resolution ->
  pick_format resolution res (pre ++ f :: post) = Ok f.
Proof.
  intros Hb Hw. apply String.eqb_neq in Hb, Hw.
  induction pre as [|g pre IH]; intros HF Hf; simpl.
  - rewrite Hb, Hw. simpl. rewrite (proj2 (String.eqb_eq _ _) Hf). reflexivity.
  - rewrite Hb, Hw. simpl. inversion HF; subst.
    destruct (String.eqb (Resolution g) (Resolution f)) eqn:E.
    + apply String.eqb_eq in E. contradiction.
    + apply IH; [assumption | reflexivity].
Qed.

Lemma malformed_differs resolution f :
  well_formed resolution = true -> well_formed (Resolution f) = false ->
  Resolution f <> resolution.
Proof. intros H1 H2 E. rewrite E in H2. congruence. Qed.

Lemma well_formed_not_sentinel resolution :
  well_formed resolution = true -> resolution <> "best" /\ resolution <> "worst".
Proof. intros H. split; intros E; rewrite E in H; discriminate H. Qed.

(** *** The sentinels: one step of the loop with a running candidate *)

Lemma pick_best_step r f rest :
  has_x r -> has_x f ->
  pick_format "best" (Some r) (f :: rest)
  = pick_format "best"
      (if (key (Resolution r) <? key (Resolution f))%Z then Some f else Some r) rest.
Proof.
  intros Hr Hf. cbn [pick_format].
  replace (String.eqb "best" "worst" || String.eqb "best" "best") with true by reflexivity.
  rewrite (resolution_sum_key _ Hf), (resolution_sum_key _ Hr).
  replace (String.eqb "best" "worst") with false by reflexivity.
  replace (String.eqb "best" "best") with true by reflexivity.
  cbn [andb].
  destruct (sentinel_has_no_x f Hf) as [Hb _].
  apply String.eqb_neq in Hb. rewrite Hb.
  destruct (key (Resolution r) <? key (Resolution f))%Z; reflexivity.
Qed.

Lemma pick_worst_step r f rest :
  has_x r -> has_x f ->
  pick_format "worst" (Some r) (f :: rest)
  = pick_format "worst"
      (if (key (Resolution f) <? key (Resolution r))%Z then Some f else Some r) rest.
Proof.
  intros Hr Hf. cbn [pick_format].
  replace (String.eqb "worst" "worst" || String.eqb "worst" "best") with true by reflexivity.
  rewrite (resolution_sum_key _ Hf), (resolution_sum_key _ Hr).
  replace (String.eqb "worst" "worst") with true by reflexivity.
  cbn [andb].
  destruct (sentinel_has_no_x f Hf) as [_ Hw].
  apply String.eqb_neq in Hw. rewrite Hw.
  destruct (key (Resolution f) <? key (Resolution r))%Z; reflexivity.
Qed.

(** The candidate at the end of the loop is either the one it started
    with, nothing later being strictly better, or a later element that
    beats the start and everything before itself. *)
Lemma pick_best_running formats : forall r,
  has_x r -> Forall has_x formats ->
  exists b,
    pick_format "best" (Some r) formats = Ok b
    /\ ((b = r /\ Forall (fun g => (key (Resolution g) <= key (Resolution r))%Z) formats)
        \/ (exists pre post,
               formats = pre ++ b :: post
               /\ (key (Resolution r) < key (Resolution b))%Z
               /\ Forall (fun g => (key (Resolution g) < key (Resolution b))%Z) pre
               /\ Forall (fun g => (key (Resolution g) <= key (Resolution b))%Z) post)).
Proof.
  induction formats as [|f rest IH]; intros r Hr HF.
  - exists r. split; [reflexivity |]. left. split; [reflexivity | constructor].
  - inversion HF as [|? ? Hf Hrest]; subst.
    rewrite (pick_best_step r f rest Hr Hf).
    destruct (key (Resolution r) <? key (Resolution f))%Z eqn:E.
    + apply Z.ltb_lt in E.
      destruct (IH f Hf Hrest) as (b & Hb & [[-> Hall] | (pre & post & -> & Hlt & Hpre & Hpost)]).
      * exists f. split; [exact Hb |]. right. exists [], rest.
        repeat split; [exact E | constructor | exact Hall].
      * exists b. split; [exact Hb |]. right. exists (f :: pre), post.
        repeat split; [lia | constructor; [exact Hlt | exact Hpre] | exact Hpost].
    + apply Z.ltb_ge in E.
      destruct (IH r Hr Hrest) as (b & Hb & [[-> Hall] | (pre & post & -> & Hlt & Hpre & Hpost)]).
      * exists r. split; [exact Hb |]. left. split; [reflexivity |].
        constructor; [exact E | exact Hall].
      * exists b. split; [exact Hb |]. right. exists (f :: pre), post.
        repeat split; [exact Hlt | constructor; [lia | exact Hpre] | exact Hpost].
Qed.

Lemma pick_worst_running formats : forall r,
  has_x r -> Forall has_x formats ->
  exists b,
    pick_format "worst" (Some r) formats = Ok b
    /\ ((b = r /\ Forall (fun g => (key (Resolution r) <= key (Resolution g))%Z) formats)
        \/ (exists pre post,
               formats = pre ++ b :: post
               /\ (key (Resolution b) < key (Resolution r))%Z
               /\ Forall (fun g => (key (Resolution b) < key (Resolution g))%Z) pre
               /\ Forall (fun g => (key (Resolution b) <= key (Resolution g))%Z) post)).
Proof.
  induction formats as [|f rest IH]; intros r Hr HF.
  - exists r. split; [reflexivity |]. left. split; [reflexivity | constructor].
  - inversion HF as [|? ? Hf Hrest]; subst.
    rewrite (pick_worst_step r f rest Hr Hf).
    destruct (key (Resolution f) <? key (Resolution r))%Z eqn:E.
    + apply Z.ltb_lt in E.
      destruct (IH f Hf Hrest) as (b & Hb & [[-> Hall] | (pre & post & -> & Hlt & Hpre & Hpost)]).
      * exists f. split; [exact Hb |]. right. exists [], rest.
        repeat split; [exact E | constructor | exact Hall].
      * exists b. split; [exact Hb |]. right. exists (f :: pre), post.
        repeat split; [lia | constructor; [exact Hlt | exact Hpre] | exact Hpost].
    + apply Z.ltb_ge in E.
      destruct (IH r Hr Hrest) as (b & Hb & [[-> Hall] | (pre & post & -> & Hlt & Hpre & Hpost)]).
      * exists r. split; [exact Hb |]. left. split; [reflexivity |].
        constructor; [exact E | exact Hall].
      * exists b. split; [exact Hb |]. right. exists (f :: pre), post.
        repeat split; [exact Hlt | constructor; [lia | exact Hpre] | exact Hpost].
Qed.

(** The whole loop, started with no candidate. *)
Lemma pick_format_best formats :
  formats <> [] -> Forall has_x formats ->
  exists b, pick_format "best" None formats = Ok b /\ earliest_best formats b.
Proof.
  destruct formats as [|f rest]; [congruence |]. intros _ HF.
  inversion HF as [|? ? Hf Hrest]; subst.
  change (pick_format "best" None (f :: rest)) with (pick_format "best" (Some f) rest).
  destruct (pick_best_running rest f Hf Hrest)
    as (b & Hb & [[-> Hall] | (pre & post & -> & Hlt & Hpre & Hpost)]).
  - exists f. split; [exact Hb |]. exists [], rest. repeat split; [constructor | exact Hall].
  - exists b. split; [exact Hb |]. exists (f :: pre), post.
    repeat split; [constructor; [exact Hlt | exact Hpre] | exact Hpost].
Qed.

Lemma pick_format_worst formats :
  formats <> [] -> Forall has_x formats ->
  exists b, pick_format "worst" None formats = Ok b /\ earliest_worst formats b.
Proof.
  destruct formats as [|f rest]; [congruence |]. intros _ HF.
  inversion HF as [|? ? Hf Hrest]; subst.
  change (pick_format "worst" None (f :: rest)) with (pick_format "worst" (Some f) rest).
  destruct (pick_worst_running rest f Hf Hrest)
    as (b & Hb & [[-> Hall] | (pre & post & -> & Hlt & Hpre & Hpost)]).
  - exists f. split; [exact Hb |]. exists [], rest. repeat split; [constructor | exact Hall].
  - exists b. split; [exact Hb |]. exists (f :: pre), post.
    repeat split; [constructor; [exact Hlt | exact Hpre] | exact Hpost].
Qed.

(** With a sentinel and a candidate in hand the loop cannot end in an
    error: it returns a format or panics. *)
Lemma pick_sentinel_no_error resolution formats : forall r e,
  resolution = "best" \/ resolution = "worst" ->
  pick_format resolution (Some r) formats <> Err e.
Proof.
  intros r e Hs. revert r.
  assert (Hsent : String.eqb resolution "worst" || String.eqb resolution "best" = true)
    by (destruct Hs as [-> | ->]; reflexivity).
  induction formats as [|f rest IH]; intros r; cbn [pick_format].
  - discriminate.
  - rewrite Hsent.
    destruct (resolution_sum (Resolution f)) as [cur|e1|w1] eqn:E1;
      [| exfalso; exact (resolution_sum_no_error _ _ E1) | discriminate].
    destruct (resolution_sum (Resolution r)) as [old|e2|w2] eqn:E2;
      [| exfalso; exact (resolution_sum_no_error _ _ E2) | discriminate].
    destruct (String.eqb (Resolution f) resolution); [discriminate |].
    destruct (String.eqb resolution "worst" && (cur <? old)%Z); [apply IH |].
    destruct (String.eqb resolution "best" && (old <? cur)%Z); apply IH.
Qed.

Variable fromVideoStreams : Crunchyroll -> string -> M (slice Stream).
Variable Formats : Stream -> M (slice Format).

(** [GetFormat] once the stream and its formats are known. *)
Lemma GetFormat_unfold c e resolution subtitle hardsub h s e' h1 formats h2 :
  select_stream fromVideoStreams c e subtitle hardsub h = (Ok (s, e'), h1) ->
  Formats s h1 = (Ok formats, h2) ->
  GetFormat fromVideoStreams Formats c e resolution subtitle hardsub h
  = match pick_format resolution None (elems formats) with
    | Ok f => (Ok (f, e'), h2)
    | Err err => (Err err, h2)
    | Panic why => (Panic why, h2)
    end.
Proof.
  intros Hs Hf. unfold GetFormat, bind, lift, ret. rewrite Hs, Hf.
  destruct (pick_format resolution None (elems formats)); reflexivity.
Qed.

End FormatSelection.

(* ===================================================================== *)
(** ** Claims about the format selection                                  *)
(* ===================================================================== *)



(** C4, the claim as it is worded, at a concrete call.  The selected
    stream has one format, whose resolution text "abc" does not parse;
    for "best" and for "worst" [GetFormat] returns that format instead
    of the error.  With two such formats the call panics. *)
Lemma C4_sentinel_returns_malformed_format :
  Rules.well_formed (Resolution Sample.f_odd) = false
  /\ Episode.GetFormat (Sample.stream_source [Sample.raw])
       (Sample.formats_of "raw" [Sample.f_odd])
       Sample.session Sample.episode "best" "" true []
     = (Ok (Sample.f_odd, Episode.set_children (Some [Sample.raw]) Sample.episode), [])
  /\ Episode.GetFormat (Sample.stream_source [Sample.raw])
       (Sample.formats_of "raw" [Sample.f_odd])
       Sample.session Sample.episode "worst" "" true []
     = (Ok (Sample.f_odd, Episode.set_children (Some [Sample.raw]) Sample.episode), [])
  /\ Episode.GetFormat (Sample.stream_source [Sample.raw])
       (Sample.formats_of "raw" [Sample.f_odd; Sample.f_odd])
       Sample.session Sample.episode "best" "" true []
     = (Panic "index out of range", []).
Proof. repeat split. Qed.

(** C4 (amended).  Once a stream is selected and its formats are
    resolved, [GetFormat] returns the error "no matching resolution
    found" whenever the format list is empty, whatever the resolution
    asked for, and whenever the resolution asked for is neither "best"
    nor "worst" and no format carries exactly that text; the latter is
    the case when the request is a well-formed WIDTHxHEIGHT text and
    every format's resolution is malformed.  For "best" and "worst" a
    non-empty list never gives an error. *)
Theorem C4_no_matching_resolution
    (fromVideoStreams : Crunchyroll -> string -> M (slice Stream))
    (Formats : Stream -> M (slice Format))
    (c : Crunchyroll) (e : Episode.t) (resolution subtitle : string) (hardsub : bool)
    (h : list Request) (s : Stream) (e' : Episode.t) (h1 : list Request)
    (formats : slice Format) (h2 : list Request) :
  Episode.select_stream fromVideoStreams c e subtitle hardsub h = (Ok (s, e'), h1) ->
  Formats s h1 = (Ok formats, h2) ->
  (elems formats = [] ->
   Episode.GetFormat fromVideoStreams Formats c e resolution subtitle hardsub h
   = (Err (ErrorString "no matching resolution found"), h2))
  /\ (resolution <> "best" -> resolution <> "worst" ->
      Forall (fun f => Resolution f <> resolution) (elems formats) ->
      Episode.GetFormat fromVideoStreams Formats c e resolution subtitle hardsub h
      = (Err (ErrorString "no matching resolution found"), h2))
  /\ (Rules.well_formed resolution = true ->
      Forall (fun f => Rules.well_formed (Resolution f) = false) (elems formats) ->
      Episode.GetFormat fromVideoStreams Formats c e resolution subtitle hardsub h
      = (Err (ErrorString "no matching resolution found"), h2))
  /\ (resolution = "best" \/ resolution = "worst" ->
      elems formats <> [] ->
      forall err hx,
        Episode.GetFormat fromVideoStreams Formats c e resolution subtitle hardsub h
        <> (Err err, hx)).
Proof.
  intros Hs Hf.
  rewrite (GetFormat_unfold fromVideoStreams Formats c e resolution subtitle hardsub
             h s e' h1 formats h2 Hs Hf).
  split; [| split; [| split]].
  - intros ->. reflexivity.
  - intros Hb Hw HF. rewrite (pick_format_exact resolution None _ Hb Hw HF). reflexivity.
  - intros Hwf HF. destruct (well_formed_not_sentinel resolution Hwf) as [Hb Hw].
    rewrite (pick_format_exact resolution None (elems formats) Hb Hw); [reflexivity |].
    eapply List.Forall_impl; [| exact HF].
    intros f Hm. apply malformed_differs; assumption.
  - intros Hsent Hne err hx.
    destruct (elems formats) as [|f rest]; [congruence |].
    assert (Hstart : Episode.pick_format resolution None (f :: rest)
                     = Episode.pick_format resolution (Some f) rest)
      by (destruct Hsent as [-> | ->]; reflexivity).
    rewrite Hstart.
    destruct (Episode.pick_format resolution (Some f) rest) as [b|e0|w] eqn:E;
      [discriminate | | discriminate].
    exfalso. exact (pick_sentinel_no_error resolution rest f e0 Hsent E).
Qed.

Lemma C4_no_matching_resolution_witness :
  Episode.GetFormat (Sample.stream_source [Sample.raw]) (Sample.formats_of "raw" [])
    Sample.session Sample.episode "best" "" true []
  = (Err (ErrorString "no matching resolution found"), [])
  /\ Episode.GetFormat (Sample.stream_source [Sample.raw])
       (Sample.formats_of "raw" [Sample.f_odd; Sample.f_odd])
       Sample.session Sample.episode "1920x1080" "" true []
     = (Err (ErrorString "no matching resolution found"), []).
Proof.
  split.
  - apply (proj1 (C4_no_matching_resolution
                    (Sample.stream_source [Sample.raw]) (Sample.formats_of "raw" [])
                    Sample.session Sample.episode "best" "" true []
                    Sample.raw (Episode.set_children (Some [Sample.raw]) Sample.episode)
                    [] (Some []) [] eq_refl eq_refl)).
    reflexivity.
  - apply (proj1 (proj2 (proj2 (C4_no_matching_resolution
                    (Sample.stream_source [Sample.raw])
                    (Sample.formats_of "raw" [Sample.f_odd; Sample.f_odd])
                    Sample.session Sample.episode "1920x1080" "" true []
                    Sample.raw (Episode.set_children (Some [Sample.raw]) Sample.episode)
                    [] (Some [Sample.f_odd; Sample.f_odd]) [] eq_refl eq_refl)))).
    + reflexivity.
    + simpl. repeat constructor.
Defined.

(* ===================================================================== *)
(** ** Claims about the cached child lists                                *)
(* ===================================================================== *)

(** C9, the claim as it is worded, at a concrete call.  The episode
    holds a cached stream list; caching is switched off; the server
    would now answer with another list.  [Streams] returns the cached
    list and sends nothing: the cached list is not bypassed. *)
Lemma C9_cached_list_not_bypassed :
  let cached := Episode.set_children (Some [Sample.raw]) Sample.episode in
  let off := SetCaching false Sample.session in
  IsCaching off = false
  /\ Episode.Streams (Sample.traced_stream_source [Sample.german]) off cached []
     = (Ok (Some [Sample.raw], cached), [])
  /\ Sample.traced_stream_source [Sample.german] off
       (Episode.streams_endpoint off cached) []
     = (Ok (Some [Sample.german]),
        [NewRequest "GET" (Episode.streams_endpoint off cached) None]).
Proof. repeat split. Qed.

(** C9 (amended).  [IsCaching] returns the last value passed to
    [SetCaching].  After [SetCaching(false)], [Episode.Streams],
    [Series.Seasons] and [Movie.MovieListing] called on an object whose
    child list is already cached still return that cached list, without
    any request (switching caching off is not retroactive); called on an
    object with nothing cached, they fetch the list and leave the cache
    slot empty. *)
Theorem C9_caching_switch
    (Season Listing : Type)
    (decodeSeason : JSON -> res Season) (decodeListing : JSON -> res Listing)
    (fromVideoStreams : Crunchyroll -> string -> M (slice Stream))
    (Net : list Request -> Request -> DoResult)
    (NRE : string -> string -> option string)
    (c : Crunchyroll) (h : list Request) :
  let off := SetCaching false c in
  (forall b, IsCaching (SetCaching b c) = b)
  /\ (forall b b', IsCaching (SetCaching b' (SetCaching b c)) = b')
  /\ (forall e,
         is_nil (Episode.children e) = false ->
         Episode.Streams fromVideoStreams off e h = (Ok (Episode.children e, e), h))
  /\ (forall s,
         is_nil (Series.children Season s) = false ->
         Series.Seasons Season decodeSeason Net NRE off s h
         = (Ok (Series.children Season s, s), h))
  /\ (forall m,
         is_nil (Movie.children Listing m) = false ->
         Movie.MovieListing Listing decodeListing Net NRE off m h
         = (Ok (Movie.children Listing m, m), h))
  /\ (forall e streams e' h',
         Episode.children e = None ->
         Episode.Streams fromVideoStreams off e h = (Ok (streams, e'), h') ->
         e' = e
         /\ fromVideoStreams off (Episode.streams_endpoint off e) h = (Ok streams, h'))
  /\ (forall s seasons s' h',
         Series.children Season s = None ->
         Series.Seasons Season decodeSeason Net NRE off s h = (Ok (seasons, s'), h') ->
         s' = s)
  /\ (forall m listings m' h',
         Movie.children Listing m = None ->
         Movie.MovieListing Listing decodeListing Net NRE off m h = (Ok (listings, m'), h') ->
         m' = m).
Proof.
  intros off. repeat apply conj.
  - intros b. reflexivity.
  - intros b b'. reflexivity.
  - intros e He. unfold Episode.Streams. rewrite He. reflexivity.
  - intros s Hs. unfold Series.Seasons. rewrite Hs. reflexivity.
  - intros m Hm. unfold Movie.MovieListing. rewrite Hm. reflexivity.
  - intros e streams e' h' He. unfold Episode.Streams, bind, ret. rewrite He. simpl.
    destruct (fromVideoStreams off (Episode.streams_endpoint off e) h) as [[x|err|w] hx];
      intros H; inversion H; subst. split; reflexivity.
  - intros s seasons s' h' Hs.
    unfold Series.Seasons, bind, lift, ret. rewrite Hs. simpl.
    destruct (Crunchyroll_request Net NRE off (Series.seasons_endpoint Season off s) "GET" h)
      as [[r|err|w] hx]; try discriminate.
    destruct (must_array _) as [items|err|w]; try discriminate.
    destruct (decode_items decodeSeason items None) as [l|err|w]; try discriminate.
    intros H; inversion H; reflexivity.
  - intros m listings m' h' Hm.
    unfold Movie.MovieListing, bind, lift, ret. rewrite Hm. simpl.
    destruct (Crunchyroll_request Net NRE off (Movie.movies_endpoint Listing off m) "GET" h)
      as [[r|err|w] hx]; try discriminate.
    destruct (must_array _) as [items|err|w]; try discriminate.
    destruct (decode_items decodeListing items None) as [l|err|w]; try discriminate.
    intros H; inversion H; reflexivity.
Qed.

Lemma C9_caching_switch_witness :
  let off := SetCaching false Sample.session in
  Episode.Streams (Sample.traced_stream_source [Sample.german]) off
    (Episode.set_children (Some [Sample.raw]) Sample.episode) []
  = (Ok (Some [Sample.raw], Episode.set_children (Some [Sample.raw]) Sample.episode), [])
  /\ Series.Seasons string Sample.decode_title (Sample.always Sample.seasons_answer)
       Sample.no_NewRequest_error off
       (Series.set_children string (Some ["Season 0"]) Sample.series) []
     = (Ok (Some ["Season 0"], Series.set_children string (Some ["Season 0"]) Sample.series),
        [])
  /\ Movie.MovieListing string Sample.decode_title (Sample.always Sample.seasons_answer)
       Sample.no_NewRequest_error off
       (Movie.set_children string (Some ["Part 1"]) Sample.movie) []
     = (Ok (Some ["Part 1"], Movie.set_children string (Some ["Part 1"]) Sample.movie), [])
  /\ Sample.traced_stream_source [Sample.german] off
       (Episode.streams_endpoint off Sample.episode) []
     = (Ok (Some [Sample.german]),
        [NewRequest "GET" (Episode.streams_endpoint off Sample.episode) None]).
Proof.
  intros off.
  pose proof (C9_caching_switch string string Sample.decode_title Sample.decode_title
                (Sample.traced_stream_source [Sample.german])
                (Sample.always Sample.seasons_answer) Sample.no_NewRequest_error
                Sample.session []) as H.
  cbv zeta in H.
  destruct H as (_ & _ & Hep & Hse & Hmo & Hfetch & _ & _).
  split; [| split; [| split]].
  - apply (Hep (Episode.set_children (Some [Sample.raw]) Sample.episode)). reflexivity.
  - apply (Hse (Series.set_children string (Some ["Season 0"]) Sample.series)). reflexivity.
  - apply (Hmo (Movie.set_children string (Some ["Part 1"]) Sample.movie)). reflexivity.
  - exact (proj2 (Hfetch Sample.episode (Some [Sample.german]) Sample.episode
                    [NewRequest "GET" (Episode.streams_endpoint off Sample.episode) None]
                    eq_refl eq_refl)).
Defined.

(** What a fetch does with caching on and with caching off. *)
Example seasons_fetch_with_and_without_caching :
  Series.Seasons string Sample.decode_title (Sample.always Sample.seasons_answer)
    Sample.no_NewRequest_error Sample.session Sample.series []
  = (Ok (Some ["Season 1"; "Season 2"],
         Series.set_children string (Some ["Season 1"; "Season 2"]) Sample.series),
     [Sample.bearer (Series.seasons_endpoint string Sample.session Sample.series)])
  /\ Series.Seasons string Sample.decode_title (Sample.always Sample.seasons_answer)
       Sample.no_NewRequest_error (SetCaching false Sample.session) Sample.series []
     = (Ok (Some ["Season 1"; "Season 2"], Sample.series),
        [Sample.bearer (Series.seasons_endpoint string Sample.session Sample.series)]).
Proof. split; vm_compute; reflexivity. Qed.

(* ===================================================================== *)
(** ** Further properties of the request normaliser                       *)
(* ===================================================================== *)

Section NormalizerMore.

Import Normalizer.

Lemma status_line_Ok_inv resp r :
  status_line resp = Ok r -> r = resp /\ (StatusCode resp < 400)%Z.
Proof.
  unfold status_line. destruct (400 <=? StatusCode resp)%Z eqn:E; [discriminate |].
  apply Z.leb_gt in E. intros H. inversion H. subst. split; [reflexivity | exact E].
Qed.

Lemma status_line_Err_inv resp e :
  status_line resp = Err e -> e = RequestError resp (Status resp).
Proof.
  unfold status_line. destruct (400 <=? StatusCode resp)%Z; [| discriminate].
  intros H. inversion H. reflexivity.
Qed.

Lemma context_error_Err_inv resp first e :
  context_error resp first = Err e -> exists msg, e = RequestError resp msg.
Proof.
  unfold context_error. destruct first as [| | | | |errField]; try discriminate.
  destruct (as_string (errField !! "message")) as [c|];
    [| destruct (as_string (errField !! "code")) as [c|]; [| discriminate]];
    (destruct (as_string (errField !! "field")) as [f|]; [| discriminate];
     intros H; inversion H; eauto).
Qed.

Lemma context_error_not_Ok resp first r : context_error resp first <> Ok r.
Proof.
  unfold context_error. destruct first as [| | | | |errField]; try discriminate.
  destruct (as_string (errField !! "message")) as [c|];
    [| destruct (as_string (errField !! "code")) as [c|]; [| discriminate]];
    (destruct (as_string (errField !! "field")) as [f|]; discriminate).
Qed.

Lemma context_error_Panic_iff resp first :
  (exists why, context_error resp first = Panic why) <-> readable_entry first = false.
Proof.
  unfold context_error, readable_entry, Documented.field_code.
  destruct first as [| | | | |errField];
    try (split; [reflexivity | intros _; eexists; reflexivity]).
  destruct (as_string (errField !! "message")) as [c|];
    [| destruct (as_string (errField !! "code")) as [c|]];
    try (destruct (as_string (errField !! "field")) as [f|]);
    split; try reflexivity; try discriminate;
    try (intros [why H]; discriminate H);
    intros _; eexists; reflexivity.
Qed.

(** Case analysis of [classify] on a decoded object, with the outcome
    brought to the three forms it can take. *)
Ltac classify_cases m :=
  destruct (m !! "error") as [[|[]| | | |]|];
  [ .. | destruct (m !! "code");
         [ destruct (m !! "context") as [[| | | |[|? ?]|]|] | ] ];
  repeat match goal with
         | |- context [as_string ?x] => destruct (as_string x)
         end.

Lemma classify_Ok_iff resp r :
  classify resp = Ok r
  <-> r = resp /\ (StatusCode resp < 400)%Z /\ quiet (Body resp) = true.
Proof.
  unfold classify, quiet, Documented.unmatched, Documented.is_string,
    Documented.nonempty_list.
  destruct (Body resp) as [|e| |m].
  - split; [intros H; apply status_line_Ok_inv in H; tauto |].
    intros (-> & Hs & _). apply status_line_low, Hs.
  - split; [discriminate | intros (_ & _ & H); discriminate H].
  - split; [intros H; apply status_line_Ok_inv in H; tauto |].
    intros (-> & Hs & _). apply status_line_low, Hs.
  - classify_cases m; simpl;
      first
        [ split; [discriminate | intros (_ & _ & H); discriminate H]
        | split; [intros H; exfalso; exact (context_error_not_Ok _ _ _ H)
                 | intros (_ & _ & H); discriminate H]
        | split; [intros H; apply status_line_Ok_inv in H; tauto
                 | intros (-> & Hs & _); apply status_line_low, Hs] ].
Qed.

Lemma classify_Err_inv resp e :
  classify resp = Err e -> exists msg, e = RequestError resp msg.
Proof.
  unfold classify.
  destruct (Body resp) as [|e0| |m].
  - intros H. apply status_line_Err_inv in H. eauto.
  - intros H. inversion H. eauto.
  - intros H. apply status_line_Err_inv in H. eauto.
  - classify_cases m;
      first
        [ intros H; apply status_line_Err_inv in H; eauto
        | intros H; apply context_error_Err_inv in H; exact H
        | intros H; inversion H; eauto ].
Qed.

Lemma classify_Panic_iff resp :
  (exists why, classify resp = Panic why)
  <-> exists m first rest,
        Body resp = BodyObject m /\ m !! "error" = None /\ is_Some (m !! "code")
        /\ m !! "context" = Some (JArray (first :: rest))
        /\ readable_entry first = false.
Proof.
  split.
  - intros [why H]. destruct (classify_panic_inv resp why H)
      as (m & first & rest & Hb & He & Hc & Hx & Hp).
    exists m, first, rest. repeat split; try assumption.
    apply (context_error_Panic_iff resp). eauto.
  - intros (m & first & rest & Hb & He & [c Hc] & Hx & Hr).
    apply (context_error_Panic_iff resp) in Hr. destruct Hr as [why Hr].
    exists why. unfold classify. rewrite Hb, He, Hc, Hx. exact Hr.
Qed.

End NormalizerMore.

(** X1.  [request] hands a response back without error exactly when
    the transport delivered it, its status is below 400 and its body
    carries no error report; the response returned is the one
    received, and the request is logged once. *)
Theorem X1_request_success_iff
    (Net : list Request -> Request -> DoResult)
    (req : Request) (h : list Request) (r : Response) (h' : list Request) :
  request Net req h = (Ok r, h')
  <-> Net h req = DoResp r /\ h' = h ++ [req]
      /\ (StatusCode r < 400)%Z /\ quiet (Body r) = true.
Proof.
  unfold request, Normalizer.request_on. split.
  - intros H. inversion H as [[Hc Hh]]. clear H.
    destruct (Net h req) as [msg|resp]; [discriminate |].
    apply classify_Ok_iff in Hc. destruct Hc as (-> & Hs & Hq).
    repeat split; assumption.
  - intros (Hn & -> & Hs & Hq). rewrite Hn.
    rewrite (proj2 (classify_Ok_iff r r)) by (repeat split; assumption).
    reflexivity.
Qed.

(** X2.  An error of [request] is either the transport failure itself,
    or a [RequestError] that embeds the very response that was
    received, so that the caller can read its status. *)
Theorem X2_request_error_carries_response
    (Net : list Request -> Request -> DoResult)
    (req : Request) (h : list Request) (e : error) (h' : list Request) :
  request Net req h = (Err e, h') ->
  (exists msg, Net h req = DoFail msg /\ e = TransportError msg)
  \/ (exists resp msg, Net h req = DoResp resp /\ e = RequestError resp msg).
Proof.
  unfold request, Normalizer.request_on. intros H. inversion H as [[Hc Hh]]. clear H.
  destruct (Net h req) as [msg|resp].
  - inversion Hc. left. eauto.
  - apply classify_Err_inv in Hc. destruct Hc as [msg ->]. right. eauto.
Qed.

Lemma X2_request_error_carries_response_witness :
  (exists msg, Sample.always Sample.plain_failure [] Sample.a_request = DoFail msg
               /\ RequestError Sample.plain_failure "500 Internal Server Error"
                  = TransportError msg)
  \/ (exists resp msg,
         Sample.always Sample.plain_failure [] Sample.a_request = DoResp resp
         /\ RequestError Sample.plain_failure "500 Internal Server Error"
            = RequestError resp msg).
Proof.
  apply (X2_request_error_carries_response (Sample.always Sample.plain_failure)
           Sample.a_request [] _ [Sample.a_request]).
  reflexivity.
Defined.

(** X3.  [request] panics exactly on the responses whose body decodes
    to an object without an "error" entry, with a "code" entry and with
    a non-empty "context" list whose first element is not an object
    carrying a string "field" and a string "message" or "code". *)
Theorem X3_request_panic_iff
    (Net : list Request -> Request -> DoResult)
    (req : Request) (h : list Request) :
  (exists why, fst (request Net req h) = Panic why)
  <-> exists resp m first rest,
        Net h req = DoResp resp
        /\ Body resp = BodyObject m /\ m !! "error" = None /\ is_Some (m !! "code")
        /\ m !! "context" = Some (JArray (first :: rest))
        /\ readable_entry first = false.
Proof.
  unfold request, Normalizer.request_on. simpl. split.
  - intros [why H]. destruct (Net h req) as [msg|resp]; [discriminate |].
    destruct (proj1 (classify_Panic_iff resp) (ex_intro _ why H))
      as (m & first & rest & Hrest).
    exists resp, m, first, rest. split; [reflexivity | exact Hrest].
  - intros (resp & m & first & rest & Hn & Hrest). rewrite Hn.
    apply classify_Panic_iff. exists m, first, rest. exact Hrest.
Qed.

(* ===================================================================== *)
(** ** Further properties of the login paths                              *)
(* ===================================================================== *)

Section LoginMore.

Variable Net : list Request -> Request -> DoResult.
Variable NRE : string -> string -> option string.

(** A response returned by [request] is the one the transport
    delivered. *)
Lemma request_Ok_delivered req h r h' :
  request Net req h = (Ok r, h') -> Net h req = DoResp r /\ h' = h ++ [req].
Proof.
  unfold request, Normalizer.request_on. intros H. inversion H as [[Hc Hh]]. clear H.
  destruct (Net h req) as [msg|resp]; [discriminate |].
  apply classify_Ok_iff in Hc. destruct Hc as (-> & _). split; reflexivity.
Qed.

(** A call of the session that returns a response has sent exactly the
    bearer request. *)
Lemma bootstrap_call_history lr locale endpoint h r h1 :
  Crunchyroll_request Net NRE (new_session lr locale) endpoint "GET" h = (Ok r, h1) ->
  h1 = h ++ [bearer_request lr endpoint].
Proof.
  unfold Crunchyroll_request, requestFull, fail.
  destruct (NRE "GET" endpoint); [discriminate |].
  intros H. apply request_history in H. exact H.
Qed.

Lemma postLogin_history lr locale h c h' :
  postLogin Net NRE lr locale h = (Ok c, h') ->
  h' = h ++ [bearer_request lr index_endpoint; bearer_request lr me_endpoint;
             bearer_request lr profile_endpoint]
  /\ cache c = true /\ Locale c = locale
  /\ RefreshToken c = lr_RefreshToken lr
  /\ AccountID (config c) = lr_AccountID lr
  /\ CountryCode (config c) = lr_Country lr.
Proof.
  postLogin_cases lr locale; intros H; inversion H; subst; clear H.
  apply bootstrap_call_history in Hcall, Hcall0, Hcall1. subst.
  repeat rewrite <- app_assoc. simpl. repeat split; reflexivity.
Qed.

Lemma etp_rt_cookie_first pre c post :
  Name c = "etp_rt" -> Forall (fun x => Name x <> "etp_rt") pre ->
  etp_rt_cookie (pre ++ c :: post) = Value c.
Proof.
  intros Hc. induction pre as [|x pre IH]; intros Hpre; simpl.
  - rewrite Hc. reflexivity.
  - inversion Hpre as [|? ? Hx Hrest]; subst.
    apply String.eqb_neq in Hx. rewrite Hx. apply IH. exact Hrest.
Qed.

Lemma etp_rt_cookie_none cookies :
  Forall (fun x => Name x <> "etp_rt") cookies -> etp_rt_cookie cookies = "".
Proof.
  induction cookies as [|x rest IH]; intros H; simpl; [reflexivity |].
  inversion H as [|? ? Hx Hrest]; subst.
  apply String.eqb_neq in Hx. rewrite Hx. apply IH. exact Hrest.
Qed.

End LoginMore.

(** X4.  A [postLogin] that returns a session has sent exactly three
    requests, in the order index, account identity, profile, each a GET
    whose Authorization header is the token type and the access token
    of the token response; the session has caching switched on and
    carries the locale, the refresh token, the account id and the
    country of the login. *)
Theorem X4_postLogin_requests
    (Net : list Request -> Request -> DoResult)
    (NRE : string -> string -> option string)
    (lr : loginResponse) (locale : string) (h : list Request)
    (c : Crunchyroll) (h' : list Request) :
  postLogin Net NRE lr locale h = (Ok c, h') ->
  h' = h ++ [bearer_request lr index_endpoint; bearer_request lr me_endpoint;
             bearer_request lr profile_endpoint]
  /\ IsCaching c = true /\ Locale c = locale
  /\ RefreshToken c = lr_RefreshToken lr
  /\ AccountID (config c) = lr_AccountID lr
  /\ CountryCode (config c) = lr_Country lr.
Proof. apply postLogin_history. Qed.

Lemma X4_postLogin_requests_witness :
  [Sample.bearer index_endpoint; Sample.bearer me_endpoint; Sample.bearer profile_endpoint]
  = [] ++ [bearer_request Sample.token index_endpoint;
           bearer_request Sample.token me_endpoint;
           bearer_request Sample.token profile_endpoint]
  /\ IsCaching Sample.session = true /\ Locale Sample.session = "en-US"
  /\ RefreshToken Sample.session = lr_RefreshToken Sample.token
  /\ AccountID (config Sample.session) = lr_AccountID Sample.token
  /\ CountryCode (config Sample.session) = lr_Country Sample.token.
Proof.
  apply (X4_postLogin_requests Sample.bootstrap_server Sample.no_NewRequest_error
           Sample.token "en-US" []).
  vm_compute. reflexivity.
Defined.

(** X5.  [LoginWithCredentials] sends one token request.  Whatever
    error that request ends in, a transport failure included, is
    returned as it is and nothing more is sent; and a login that
    returns a session has sent that request followed by the three
    bootstrap requests built from the decoded token response. *)
Theorem X5_LoginWithCredentials_outcome
    (Net : list Request -> Request -> DoResult)
    (NRE : string -> string -> option string)
    (decode : body -> loginResponse)
    (user password locale : string) (h : list Request) :
  NRE "POST" token_endpoint = None ->
  (forall msg,
      Net h (credentials_request user password) = DoFail msg ->
      LoginWithCredentials Net NRE decode user password locale h
      = (Err (TransportError msg), h ++ [credentials_request user password]))
  /\ (forall e h1,
         request Net (credentials_request user password) h = (Err e, h1) ->
         LoginWithCredentials Net NRE decode user password locale h = (Err e, h1)
         /\ h1 = h ++ [credentials_request user password])
  /\ (forall c h',
         LoginWithCredentials Net NRE decode user password locale h = (Ok c, h') ->
         exists resp,
           Net h (credentials_request user password) = DoResp resp
           /\ h' = h ++ [credentials_request user password;
                         bearer_request (decode (Body resp)) index_endpoint;
                         bearer_request (decode (Body resp)) me_endpoint;
                         bearer_request (decode (Body resp)) profile_endpoint]
           /\ Locale c = locale).
Proof.
  intros Hparse. unfold LoginWithCredentials. rewrite Hparse.
  split; [| split].
  - intros msg Hn. unfold bind, request, Normalizer.request_on. rewrite Hn. reflexivity.
  - intros e h1 H. unfold bind. rewrite H. split; [reflexivity |].
    apply request_history in H. exact H.
  - intros c h'. unfold bind.
    destruct (request Net (credentials_request user password) h) as [[resp|e|w] h1] eqn:E;
      try discriminate.
    intros H. apply postLogin_history in H. destruct H as (-> & _ & Hl & _).
    apply request_Ok_delivered in E. destruct E as (Hn & ->).
    exists resp. split; [exact Hn |]. split; [| exact Hl].
    rewrite <- app_assoc. reflexivity.
Qed.

Lemma X5_LoginWithCredentials_outcome_witness :
  LoginWithCredentials Sample.unreachable Sample.no_NewRequest_error Sample.decode_token
    "user" "secret" "en-US" []
  = (Err (TransportError "dial tcp: connection refused"),
     [credentials_request "user" "secret"]).
Proof.
  apply (proj1 (X5_LoginWithCredentials_outcome Sample.unreachable
                  Sample.no_NewRequest_error Sample.decode_token
                  "user" "secret" "en-US" [] eq_refl)
           "dial tcp: connection refused").
  reflexivity.
Defined.

(** X6.  In [LoginWithRefreshToken], a first token request that
    succeeds, or that fails with a [RequestError] of a status other
    than 400, is final: no second token request is sent.  After a
    [RequestError] of status 400 exactly one more token request is
    sent, the cookie grant; if it fails, its error is the one returned,
    and if it succeeds the login goes on with its token response. *)
Theorem X6_LoginWithRefreshToken_fallback
    (Net : list Request -> Request -> DoResult)
    (NRE : string -> string -> option string)
    (decode : body -> loginResponse)
    (tok locale : string) (h : list Request) :
  NRE "POST" token_endpoint = None ->
  let first := h ++ [refresh_request tok] in
  (forall resp,
      request Net (refresh_request tok) h = (Ok resp, first) ->
      LoginWithRefreshToken Net NRE decode tok locale h
      = postLogin Net NRE (decode (Body resp)) locale first)
  /\ (forall r msg,
         request Net (refresh_request tok) h = (Err (RequestError r msg), first) ->
         StatusCode r <> StatusBadRequest ->
         LoginWithRefreshToken Net NRE decode tok locale h
         = (Err (RequestError r msg), first))
  /\ (forall r msg,
         request Net (refresh_request tok) h = (Err (RequestError r msg), first) ->
         StatusCode r = StatusBadRequest ->
         (forall e2 h2,
             request Net (cookie_request tok) first = (Err e2, h2) ->
             LoginWithRefreshToken Net NRE decode tok locale h = (Err e2, h2)
             /\ h2 = h ++ [refresh_request tok; cookie_request tok])
         /\ (forall resp2 h2,
                request Net (cookie_request tok) first = (Ok resp2, h2) ->
                LoginWithRefreshToken Net NRE decode tok locale h
                = postLogin Net NRE (decode (Body resp2)) locale
                    (h ++ [refresh_request tok; cookie_request tok]))).
Proof.
  intros Hparse first. subst first. split; [| split].
  - intros resp H. unfold LoginWithRefreshToken, bind.
    rewrite (refresh_exchange_success Net NRE Hparse tok h resp H). reflexivity.
  - intros r msg H Hs. unfold LoginWithRefreshToken, bind.
    rewrite (refresh_exchange_other_status Net NRE Hparse tok h r msg H Hs). reflexivity.
  - intros r msg H Hs.
    destruct (refresh_exchange_bad_request Net NRE Hparse tok h r msg H Hs) as [Hx _].
    split.
    + intros e2 h2 H2. unfold LoginWithRefreshToken, bind. rewrite Hx, H2.
      split; [reflexivity |].
      apply request_history in H2. rewrite H2, <- app_assoc. reflexivity.
    + intros resp2 h2 H2. unfold LoginWithRefreshToken, bind. rewrite Hx, H2.
      apply request_history in H2. rewrite H2, <- app_assoc. reflexivity.
Qed.

Lemma X6_LoginWithRefreshToken_fallback_witness :
  LoginWithRefreshToken Sample2.always_bad_request Sample.no_NewRequest_error
    Sample.decode_token "rt-1" "en-US" []
  = (Err (RequestError Sample.error_with_code "invalid_grant - auth.obtain"),
     [refresh_request "rt-1"; cookie_request "rt-1"])
  /\ LoginWithRefreshToken (Sample.always Sample2.unauthorized)
       Sample.no_NewRequest_error Sample.decode_token "rt-1" "en-US" []
     = (Err (RequestError Sample2.unauthorized "invalid_grant"), [refresh_request "rt-1"]).
Proof.
  split.
  - apply (proj1 (proj2 (proj2 (X6_LoginWithRefreshToken_fallback
             Sample2.always_bad_request Sample.no_NewRequest_error Sample.decode_token
             "rt-1" "en-US" [] eq_refl))
             Sample.error_with_code "invalid_grant - auth.obtain" eq_refl eq_refl)
             (RequestError Sample.error_with_code "invalid_grant - auth.obtain")
             [refresh_request "rt-1"; cookie_request "rt-1"]).
    reflexivity.
  - apply (proj1 (proj2 (X6_LoginWithRefreshToken_fallback
             (Sample.always Sample2.unauthorized) Sample.no_NewRequest_error
             Sample.decode_token "rt-1" "en-US" [] eq_refl))
             Sample2.unauthorized "invalid_grant" eq_refl).
    simpl. discriminate.
Defined.

(** X7.  [LoginWithSessionID] gives up before any token request when
    the session start fails: on a transport failure, on a status other
    than 200 (error "failed to start session: <status>"), on a body
    that does not decode, and on a body whose "error" entry is true
    with a string "message" (error "invalid session id (<message>):
    <code>").  In each case the start request is the only one sent. *)
Theorem X7_LoginWithSessionID_gate
    (Net : list Request -> Request -> DoResult)
    (NRE : string -> string -> option string)
    (decode : body -> loginResponse)
    (Decoder_Decode : body -> string + gmap string JSON)
    (Sprint : option JSON -> string)
    (sessionID locale : string) (h : list Request) :
  NRE "GET" (start_session_endpoint sessionID) = None ->
  let start := NewRequest "GET" (start_session_endpoint sessionID) None in
  let login := LoginWithSessionID Net NRE decode Decoder_Decode Sprint sessionID locale h in
  (forall msg, Net h start = DoFail msg -> login = (Err (TransportError msg), h ++ [start]))
  /\ (forall resp,
         Net h start = DoResp resp -> StatusCode resp <> StatusOK ->
         login = (Err (ErrorString ("failed to start session: " +:+ Status resp)),
                  h ++ [start]))
  /\ (forall resp e,
         Net h start = DoResp resp -> StatusCode resp = StatusOK ->
         Decoder_Decode (Body resp) = inl e ->
         login
         = (Err (ErrorString
                   ("failed to parse start session with session id response: " +:+ e)),
            h ++ [start]))
  /\ (forall resp jsonBody message,
         Net h start = DoResp resp -> StatusCode resp = StatusOK ->
         Decoder_Decode (Body resp) = inr jsonBody ->
         jsonBody !! "error" = Some (JBool true) ->
         jsonBody !! "message" = Some (JString message) ->
         login
         = (Err (ErrorString ("invalid session id (" +:+ message +:+ "): "
                              +:+ Sprint (jsonBody !! "code"))),
            h ++ [start])).
Proof.
  intros Hparse start login. subst start login.
  unfold LoginWithSessionID, bind, client_Get. rewrite Hparse.
  split; [| split; [| split]].
  - intros msg Hn. rewrite Hn. reflexivity.
  - intros resp Hn Hs. rewrite Hn.
    destruct (StatusCode resp =? StatusOK)%Z eqn:E; [| reflexivity].
    apply Z.eqb_eq in E. contradiction.
  - intros resp e Hn Hs Hd. rewrite Hn, Hs, Hd. reflexivity.
  - intros resp jsonBody message Hn Hs Hd He Hm. rewrite Hn, Hs, Hd.
    unfold error_flag, lift, fail. simpl. rewrite He, Hm. reflexivity.
Qed.

Lemma X7_LoginWithSessionID_gate_witness :
  LoginWithSessionID
    (Sample2.with_start_session Sample2.start_session_rejected Sample.unreachable)
    Sample.no_NewRequest_error Sample.decode_token Sample2.decode_map Sample2.sprint
    "sid-1" "en-US" []
  = (Err (ErrorString "invalid session id (Invalid session): bad_session"),
     [NewRequest "GET" (start_session_endpoint "sid-1") None])
  /\ LoginWithSessionID
       (Sample2.with_start_session Sample.not_found Sample.unreachable)
       Sample.no_NewRequest_error Sample.decode_token Sample2.decode_map Sample2.sprint
       "sid-1" "en-US" []
     = (Err (ErrorString "failed to start session: 404 Not Found"),
        [NewRequest "GET" (start_session_endpoint "sid-1") None]).
Proof.
  split.
  - etransitivity.
    + apply (proj2 (proj2 (proj2 (X7_LoginWithSessionID_gate
               (Sample2.with_start_session Sample2.start_session_rejected
                  Sample.unreachable)
               Sample.no_NewRequest_error Sample.decode_token Sample2.decode_map
               Sample2.sprint "sid-1" "en-US" [] eq_refl)))
               Sample2.start_session_rejected
               (<["error" := JBool true]>
                  (<["message" := JString "Invalid session"]>
                     (<["code" := JString "bad_session"]> ∅)))
               "Invalid session");
        reflexivity.
    + vm_compute. reflexivity.
  - apply (proj1 (proj2 (X7_LoginWithSessionID_gate
             (Sample2.with_start_session Sample.not_found Sample.unreachable)
             Sample.no_NewRequest_error Sample.decode_token Sample2.decode_map
             Sample2.sprint "sid-1" "en-US" [] eq_refl))
             Sample.not_found); [reflexivity | simpl; discriminate].
Defined.

(** X8.  [LoginWithSessionID] panics on a start response of status 200
    whose decoded body has an "error" entry that is not a boolean (a
    text, a number, null), and on one whose "error" entry is true while
    "message" is not a string: both assertions are unchecked. *)
Theorem X8_LoginWithSessionID_panics
    (Net : list Request -> Request -> DoResult)
    (NRE : string -> string -> option string)
    (decode : body -> loginResponse)
    (Decoder_Decode : body -> string + gmap string JSON)
    (Sprint : option JSON -> string)
    (sessionID locale : string) (h : list Request)
    (resp : Response) (jsonBody : gmap string JSON) :
  NRE "GET" (start_session_endpoint sessionID) = None ->
  Net h (NewRequest "GET" (start_session_endpoint sessionID) None) = DoResp resp ->
  StatusCode resp = StatusOK ->
  Decoder_Decode (Body resp) = inr jsonBody ->
  (forall v,
      jsonBody !! "error" = Some v -> (forall b, v <> JBool b) ->
      LoginWithSessionID Net NRE decode Decoder_Decode Sprint sessionID locale h
      = (Panic "interface conversion: interface {} is not bool",
         h ++ [NewRequest "GET" (start_session_endpoint sessionID) None]))
  /\ (jsonBody !! "error" = Some (JBool true) ->
      as_string (jsonBody !! "message") = None ->
      LoginWithSessionID Net NRE decode Decoder_Decode Sprint sessionID locale h
      = (Panic "interface conversion: interface {} is not string",
         h ++ [NewRequest "GET" (start_session_endpoint sessionID) None])).
Proof.
  intros Hparse Hn Hs Hd.
  unfold LoginWithSessionID, bind, client_Get. rewrite Hparse, Hn, Hs, Hd.
  unfold error_flag, lift. simpl. split.
  - intros v He Hv. rewrite He.
    destruct v as [|b| | | |]; try reflexivity. exfalso. exact (Hv b eq_refl).
  - intros He Hm. rewrite He.
    destruct (jsonBody !! "message") as [[]|]; simpl in Hm; try discriminate; reflexivity.
Qed.

Lemma X8_LoginWithSessionID_panics_witness :
  LoginWithSessionID
    (Sample2.with_start_session Sample2.start_session_text_error Sample.unreachable)
    Sample.no_NewRequest_error Sample.decode_token Sample2.decode_map Sample2.sprint
    "sid-1" "en-US" []
  = (Panic "interface conversion: interface {} is not bool",
     [NewRequest "GET" (start_session_endpoint "sid-1") None]).
Proof.
  apply (proj1 (X8_LoginWithSessionID_panics
           (Sample2.with_start_session Sample2.start_session_text_error Sample.unreachable)
           Sample.no_NewRequest_error Sample.decode_token Sample2.decode_map
           Sample2.sprint "sid-1" "en-US" []
           Sample2.start_session_text_error
           (<["error" := JString "bad_session"]> ∅)
           eq_refl eq_refl eq_refl eq_refl)
           (JString "bad_session"));
    [reflexivity | discriminate].
Defined.

(** X9.  When the session start is accepted (status 200, a body that
    decodes, no true "error" flag), [LoginWithSessionID] continues as
    [LoginWithRefreshToken] with the value of the first cookie named
    etp_rt in the response; when the response has no such cookie the
    login is attempted all the same, with the empty token. *)
Theorem X9_LoginWithSessionID_cookie
    (Net : list Request -> Request -> DoResult)
    (NRE : string -> string -> option string)
    (decode : body -> loginResponse)
    (Decoder_Decode : body -> string + gmap string JSON)
    (Sprint : option JSON -> string)
    (sessionID locale : string) (h : list Request)
    (resp : Response) (jsonBody : gmap string JSON) :
  NRE "GET" (start_session_endpoint sessionID) = None ->
  Net h (NewRequest "GET" (start_session_endpoint sessionID) None) = DoResp resp ->
  StatusCode resp = StatusOK ->
  Decoder_Decode (Body resp) = inr jsonBody ->
  error_flag jsonBody = Ok false ->
  let after := h ++ [NewRequest "GET" (start_session_endpoint sessionID) None] in
  (forall pre c post,
      Cookies resp = pre ++ c :: post ->
      Name c = "etp_rt" -> Forall (fun x => Name x <> "etp_rt") pre ->
      LoginWithSessionID Net NRE decode Decoder_Decode Sprint sessionID locale h
      = LoginWithRefreshToken Net NRE decode (Value c) locale after)
  /\ (Forall (fun x => Name x <> "etp_rt") (Cookies resp) ->
      LoginWithSessionID Net NRE decode Decoder_Decode Sprint sessionID locale h
      = LoginWithRefreshToken Net NRE decode "" locale after).
Proof.
  intros Hparse Hn Hs Hd Hf after. subst after.
  assert (Hgo : LoginWithSessionID Net NRE decode Decoder_Decode Sprint sessionID locale h
                = LoginWithRefreshToken Net NRE decode (etp_rt_cookie (Cookies resp)) locale
                    (h ++ [NewRequest "GET" (start_session_endpoint sessionID) None])).
  { unfold LoginWithSessionID, bind, client_Get. rewrite Hparse, Hn, Hs, Hd.
    unfold lift. simpl. rewrite Hf. reflexivity. }
  split.
  - intros pre c post Hc Hname Hpre. rewrite Hgo, Hc.
    rewrite (etp_rt_cookie_first pre c post Hname Hpre). reflexivity.
  - intros Hnone. rewrite Hgo, (etp_rt_cookie_none _ Hnone). reflexivity.
Qed.

Lemma X9_LoginWithSessionID_cookie_witness :
  LoginWithSessionID
    (Sample2.with_start_session Sample2.start_session_answer Sample.cookie_only_server)
    Sample.no_NewRequest_error Sample.decode_token Sample2.decode_map Sample2.sprint
    "sid-1" "en-US" []
  = LoginWithRefreshToken
      (Sample2.with_start_session Sample2.start_session_answer Sample.cookie_only_server)
      Sample.no_NewRequest_error Sample.decode_token "rt-1" "en-US"
      [NewRequest "GET" (start_session_endpoint "sid-1") None]
  /\ LoginWithSessionID
       (Sample2.with_start_session Sample2.start_session_bare Sample.cookie_only_server)
       Sample.no_NewRequest_error Sample.decode_token Sample2.decode_map Sample2.sprint
       "sid-1" "en-US" []
     = LoginWithRefreshToken
         (Sample2.with_start_session Sample2.start_session_bare Sample.cookie_only_server)
         Sample.no_NewRequest_error Sample.decode_token "" "en-US"
         [NewRequest "GET" (start_session_endpoint "sid-1") None].
Proof.
  split.
  - apply (proj1 (X9_LoginWithSessionID_cookie
             (Sample2.with_start_session Sample2.start_session_answer
                Sample.cookie_only_server)
             Sample.no_NewRequest_error Sample.decode_token Sample2.decode_map
             Sample2.sprint "sid-1" "en-US" [] Sample2.start_session_answer
             (<["error" := JBool false]> ∅) eq_refl eq_refl eq_refl eq_refl eq_refl)
             [{| Name := "session_id"; Value := "sid-1" |}]
             {| Name := "etp_rt"; Value := "rt-1" |}
             [{| Name := "etp_rt"; Value := "rt-2" |}]).
    + reflexivity.
    + reflexivity.
    + repeat constructor. simpl. discriminate.
  - apply (proj2 (X9_LoginWithSessionID_cookie
             (Sample2.with_start_session Sample2.start_session_bare
                Sample.cookie_only_server)
             Sample.no_NewRequest_error Sample.decode_token Sample2.decode_map
             Sample2.sprint "sid-1" "en-US" [] Sample2.start_session_bare
             ∅ eq_refl eq_refl eq_refl eq_refl eq_refl)).
    constructor.
Defined.

(* ===================================================================== *)
(** ** Further properties of the cached child lists                       *)
(* ===================================================================== *)

Section ChildLists.

(** The loop that decodes the items: the results are appended in the
    order of the items, and a list that stays nil when there is none. *)
Lemma decode_items_all {A} (decode : JSON -> res A) items : forall l acc,
  Forall2 (fun item x => decode item = Ok x) items l ->
  decode_items decode items acc
  = Ok (match l with [] => acc | _ :: _ => Some (elems acc ++ l) end).
Proof.
  induction items as [|item rest IH]; intros l acc H.
  - inversion H; subst. reflexivity.
  - inversion H as [|? x ? l' Hx Hrest]; subst. simpl. rewrite Hx.
    rewrite (IH l' (append acc x) Hrest). unfold append. simpl.
    destruct l' as [|y l'].
    + reflexivity.
    + rewrite <- app_assoc. reflexivity.
Qed.

Lemma decode_items_first_error {A} (decode : JSON -> res A) pre bad post e : forall l acc,
  Forall2 (fun item x => decode item = Ok x) pre l ->
  decode bad = Err e ->
  decode_items decode (pre ++ bad :: post) acc = Err e.
Proof.
  induction pre as [|item rest IH]; intros l acc H Hbad.
  - simpl. rewrite Hbad. reflexivity.
  - inversion H as [|? x ? l' Hx Hrest]; subst. simpl. rewrite Hx.
    apply (IH l' _ Hrest Hbad).
Qed.

Lemma Episode_set_children_same e :
  Episode.children e = None -> Episode.set_children None e = e.
Proof. destruct e as [i s ch]. simpl. intros ->. reflexivity. Qed.

End ChildLists.

(** X10.  With caching on, a first [Streams] that fetched a non-nil
    list leaves the episode such that every later [Streams] on it
    returns that same list without fetching, whatever the session and
    the server then are; a fetch that came back with a nil list leaves
    the episode as it was, so that the next call fetches again. *)
Theorem X10_Streams_remembers
    (fromVideoStreams : Crunchyroll -> string -> M (slice Stream))
    (c : Crunchyroll) (e : Episode.t) (h : list Request)
    (streams : slice Stream) (e' : Episode.t) (h' : list Request) :
  cache c = true ->
  Episode.children e = None ->
  Episode.Streams fromVideoStreams c e h = (Ok (streams, e'), h') ->
  (is_nil streams = false ->
   forall fromVideoStreams2 c2 h2,
     Episode.Streams fromVideoStreams2 c2 e' h2 = (Ok (streams, e'), h2))
  /\ (is_nil streams = true -> e' = e).
Proof.
  intros Hc He. unfold Episode.Streams, bind, ret. rewrite He. simpl.
  destruct (fromVideoStreams c (Episode.streams_endpoint c e) h) as [[x|err|w] hx];
    try discriminate.
  rewrite Hc. intros H. inversion H; subst. clear H. split.
  - intros Hnil f2 c2 h2. simpl. rewrite Hnil. reflexivity.
  - intros Hnil. destruct streams; [discriminate |].
    apply Episode_set_children_same. exact He.
Qed.

Lemma X10_Streams_remembers_witness :
  Episode.Streams (Sample.stream_source [Sample.german])
    (SetCaching false Sample.session)
    (Episode.set_children (Some [Sample.raw]) Sample.episode)
    [Sample.a_request]
  = (Ok (Some [Sample.raw], Episode.set_children (Some [Sample.raw]) Sample.episode),
     [Sample.a_request]).
Proof.
  apply (proj1 (X10_Streams_remembers (Sample.stream_source [Sample.raw])
                  Sample.session Sample.episode [] (Some [Sample.raw])
                  (Episode.set_children (Some [Sample.raw]) Sample.episode) []
                  eq_refl eq_refl eq_refl)).
  reflexivity.
Defined.

(** X11.  On a series with nothing cached, when the request succeeds
    and the body has an "items" list, [Seasons] returns the decoded
    items in the order of the list and, with caching on, stores them in
    the series; when the list is empty the result is nil and nothing is
    stored; and the first item that fails to decode ends the call with
    its error. *)
Theorem X11_Seasons_decoded
    (Season : Type) (decode : JSON -> res Season)
    (Net : list Request -> Request -> DoResult)
    (NRE : string -> string -> option string)
    (c : Crunchyroll) (s : Series.t Season) (h : list Request)
    (resp : Response) (h' : list Request) (items : list JSON) :
  Series.children Season s = None ->
  Crunchyroll_request Net NRE c (Series.seasons_endpoint Season c s) "GET" h
  = (Ok resp, h') ->
  Decode (Body resp) ∅ !! "items" = Some (JArray items) ->
  (forall x l,
      Forall2 (fun item y => decode item = Ok y) items (x :: l) ->
      Series.Seasons Season decode Net NRE c s h
      = (Ok (Some (x :: l),
             if cache c then Series.set_children Season (Some (x :: l)) s else s), h'))
  /\ (items = [] -> Series.Seasons Season decode Net NRE c s h = (Ok (None, s), h'))
  /\ (forall pre bad post l e,
         items = pre ++ bad :: post ->
         Forall2 (fun item y => decode item = Ok y) pre l ->
         decode bad = Err e ->
         Series.Seasons Season decode Net NRE c s h = (Err e, h')).
Proof.
  intros Hs Hreq Hitems.
  unfold Series.Seasons, bind, lift, ret. rewrite Hs. simpl.
  rewrite Hreq, Hitems. simpl. split; [| split].
  - intros x l HF. rewrite (decode_items_all decode items (x :: l) None HF). reflexivity.
  - intros ->. simpl. destruct (cache c); [| reflexivity].
    destruct s as [i ch]. simpl in Hs. subst. reflexivity.
  - intros pre bad post l e -> HF Hbad.
    rewrite (decode_items_first_error decode pre bad post e l None HF Hbad). reflexivity.
Qed.

Lemma X11_Seasons_decoded_witness :
  Series.Seasons string Sample.decode_title (Sample.always Sample.seasons_answer)
    Sample.no_NewRequest_error Sample.session Sample.series []
  = (Ok (Some ["Season 1"; "Season 2"],
         Series.set_children string (Some ["Season 1"; "Season 2"]) Sample.series),
     [Sample.bearer (Series.seasons_endpoint string Sample.session Sample.series)]).
Proof.
  apply (proj1 (X11_Seasons_decoded string Sample.decode_title
                  (Sample.always Sample.seasons_answer) Sample.no_NewRequest_error
                  Sample.session Sample.series [] Sample.seasons_answer
                  [Sample.bearer (Series.seasons_endpoint string Sample.session
                                    Sample.series)]
                  [JString "Season 1"; JString "Season 2"]
                  eq_refl eq_refl eq_refl)
           "Season 1" ["Season 2"]).
  repeat constructor.
Defined.

(** X12.  When the request succeeds but the decoded body has no
    "items" list (no body at all, no such key, or a value that is not a
    list), [Seasons] and [MovieListing] panic on the unchecked
    assertion instead of returning an error. *)
Theorem X12_missing_items_panics
    (Season Listing : Type)
    (decodeSeason : JSON -> res Season) (decodeListing : JSON -> res Listing)
    (Net : list Request -> Request -> DoResult)
    (NRE : string -> string -> option string)
    (c : Crunchyroll) (h : list Request) :
  (forall s resp h',
      Series.children Season s = None ->
      Crunchyroll_request Net NRE c (Series.seasons_endpoint Season c s) "GET" h
      = (Ok resp, h') ->
      (forall l, Decode (Body resp) ∅ !! "items" <> Some (JArray l)) ->
      Series.Seasons Season decodeSeason Net NRE c s h
      = (Panic "interface conversion: interface {} is not []interface {}", h'))
  /\ (forall m resp h',
         Movie.children Listing m = None ->
         Crunchyroll_request Net NRE c (Movie.movies_endpoint Listing c m) "GET" h
         = (Ok resp, h') ->
         (forall l, Decode (Body resp) ∅ !! "items" <> Some (JArray l)) ->
         Movie.MovieListing Listing decodeListing Net NRE c m h
         = (Panic "interface conversion: interface {} is not []interface {}", h')).
Proof.
  split.
  - intros s resp h' Hs Hreq Hno.
    unfold Series.Seasons, bind, lift. rewrite Hs. simpl. rewrite Hreq.
    destruct (Decode (Body resp) ∅ !! "items") as [[| | | |l|]|] eqn:E; try reflexivity.
    exfalso. exact (Hno l eq_refl).
  - intros m resp h' Hm Hreq Hno.
    unfold Movie.MovieListing, bind, lift. rewrite Hm. simpl. rewrite Hreq.
    destruct (Decode (Body resp) ∅ !! "items") as [[| | | |l|]|] eqn:E; try reflexivity.
    exfalso. exact (Hno l eq_refl).
Qed.

Lemma X12_missing_items_panics_witness :
  Series.Seasons string Sample.decode_title (Sample.always Sample.me_answer)
    Sample.no_NewRequest_error Sample.session Sample.series []
  = (Panic "interface conversion: interface {} is not []interface {}",
     [Sample.bearer (Series.seasons_endpoint string Sample.session Sample.series)]).
Proof.
  apply (proj1 (X12_missing_items_panics string string Sample.decode_title
                  Sample.decode_title (Sample.always Sample.me_answer)
                  Sample.no_NewRequest_error Sample.session [])
           Sample.series Sample.me_answer).
  - reflexivity.
  - reflexivity.
  - intros l. vm_compute. discriminate.
Defined.

(** X13.  [AudioLocale] of an episode is the audio locale of the first
    stream that [Streams] returns; when [Streams] succeeds with an
    empty list the call panics with an index out of range. *)
Theorem X13_AudioLocale_first_stream
    (fromVideoStreams : Crunchyroll -> string -> M (slice Stream))
    (c : Crunchyroll) (e : Episode.t) (h : list Request)
    (streams : slice Stream) (e' : Episode.t) (h' : list Request) :
  Episode.Streams fromVideoStreams c e h = (Ok (streams, e'), h') ->
  (forall first rest,
      elems streams = first :: rest ->
      Episode_AudioLocale fromVideoStreams c e h = (Ok (AudioLocale first, e'), h'))
  /\ (elems streams = [] ->
      Episode_AudioLocale fromVideoStreams c e h = (Panic "index out of range", h')).
Proof.
  intros H. unfold Episode_AudioLocale, bind, lift, ret. rewrite H. split.
  - intros first rest ->. reflexivity.
  - intros ->. reflexivity.
Qed.

Lemma X13_AudioLocale_first_stream_witness :
  Episode_AudioLocale (Sample.stream_source []) Sample.session Sample.episode []
  = (Panic "index out of range",
     []).
Proof.
  apply (proj2 (X13_AudioLocale_first_stream (Sample.stream_source [])
                  Sample.session Sample.episode [] (Some [])
                  (Episode.set_children (Some []) Sample.episode) [] eq_refl)).
  reflexivity.
Defined.

(* ===================================================================== *)
(** ** Further properties of the format selection                         *)
(* ===================================================================== *)

Section FormatMore.

Import Episode Rules.

Lemma has_x_dec f : has_x f \/ cut "x" (Resolution f) = None.
Proof.
  unfold has_x. destruct (cut "x" (Resolution f)) as [p|]; [left; eauto | right; reflexivity].
Qed.

Lemma no_x_not_has_x f : cut "x" (Resolution f) = None -> ~ has_x f.
Proof. intros H [p Hp]. rewrite H in Hp. discriminate. Qed.


(** One step of the sentinel loop, for either sentinel. *)
Lemma pick_sentinel_step resolution r f rest :
  resolution = "best" \/ resolution = "worst" ->
  has_x r -> has_x f ->
  exists r', (r' = r \/ r' = f)
             /\ pick_format resolution (Some r) (f :: rest)
                = pick_format resolution (Some r') rest.
Proof.
  intros [-> | ->] Hr Hf.
  - rewrite (pick_best_step r f rest Hr Hf).
    destruct (key (Resolution r) <? key (Resolution f))%Z; eauto.
  - rewrite (pick_worst_step r f rest Hr Hf).
    destruct (key (Resolution f) <? key (Resolution r))%Z; eauto.
Qed.

Lemma pick_sentinel_unreadable_current resolution r f rest :
  resolution = "best" \/ resolution = "worst" ->
  cut "x" (Resolution f) = None ->
  pick_format resolution (Some r) (f :: rest) = Panic "index out of range".
Proof.
  intros Hs Hf. cbn [pick_format].
  replace (String.eqb resolution "worst" || String.eqb resolution "best") with true
    by (destruct Hs as [-> | ->]; reflexivity).
  rewrite (resolution_sum_no_x _ Hf). reflexivity.
Qed.

Lemma pick_sentinel_unreadable_candidate resolution r f rest :
  resolution = "best" \/ resolution = "worst" ->
  cut "x" (Resolution r) = None ->
  pick_format resolution (Some r) (f :: rest) = Panic "index out of range".
Proof.
  intros Hs Hr. cbn [pick_format].
  replace (String.eqb resolution "worst" || String.eqb resolution "best") with true
    by (destruct Hs as [-> | ->]; reflexivity).
  destruct (has_x_dec f) as [Hf | Hf].
  - rewrite (resolution_sum_key _ Hf), (resolution_sum_no_x _ Hr). reflexivity.
  - rewrite (resolution_sum_no_x _ Hf). reflexivity.
Qed.

Lemma pick_sentinel_running_panic resolution rest : forall r,
  resolution = "best" \/ resolution = "worst" ->
  has_x r ->
  (pick_format resolution (Some r) rest = Panic "index out of range"
   <-> Exists (fun f => ~ has_x f) rest)
  /\ (forall why, pick_format resolution (Some r) rest = Panic why ->
                  why = "index out of range").
Proof.
  induction rest as [|f rest IH]; intros r Hs Hr.
  - split; [| discriminate]. split; [discriminate |]. intros H. inversion H.
  - destruct (has_x_dec f) as [Hf | Hf].
    + destruct (pick_sentinel_step resolution r f rest Hs Hr Hf) as (r' & Hr' & ->).
      assert (Hx' : has_x r') by (destruct Hr' as [-> | ->]; assumption).
      destruct (IH r' Hs Hx') as [Hiff Hwhy]. split; [| exact Hwhy].
      rewrite Hiff. split.
      * intros H. right. exact H.
      * intros H. inversion H; subst; [contradiction | assumption].
    + rewrite (pick_sentinel_unreadable_current resolution r f rest Hs Hf).
      split; [| intros why H; inversion H; reflexivity].
      split; [| reflexivity]. intros _. left. apply no_x_not_has_x. exact Hf.
Qed.

Lemma pick_sentinel_panic_iff resolution formats :
  resolution = "best" \/ resolution = "worst" ->
  pick_format resolution None formats = Panic "index out of range"
  <-> (2 <= length formats)%nat /\ Exists (fun f => ~ has_x f) formats.
Proof.
  intros Hs.
  assert (Hstart : forall f rest, pick_format resolution None (f :: rest)
                                  = pick_format resolution (Some f) rest)
    by (intros f rest; destruct Hs as [-> | ->]; reflexivity).
  destruct formats as [|f [|g rest]].
  - simpl. split; [discriminate | intros [H _]; lia].
  - rewrite Hstart. simpl. split; [discriminate | intros [H _]; lia].
  - rewrite Hstart. destruct (has_x_dec f) as [Hf | Hf].
    + rewrite (proj1 (pick_sentinel_running_panic resolution (g :: rest) f Hs Hf)).
      split.
      * intros H. split; [simpl; lia | right; exact H].
      * intros [_ H]. inversion H; subst; [contradiction | assumption].
    + rewrite (pick_sentinel_unreadable_candidate resolution f g rest Hs Hf).
      split; [| reflexivity]. intros _. split; [simpl; lia |].
      left. apply no_x_not_has_x. exact Hf.
Qed.

(** Whatever the loop returns was in the list or was the candidate. *)
Lemma pick_format_member resolution formats : forall res f,
  pick_format resolution res formats = Ok f -> In f formats \/ res = Some f.
Proof.
  induction formats as [|g rest IH]; intros res f; cbn [pick_format].
  - destruct res; [| discriminate]. intros H. inversion H. right. reflexivity.
  - destruct (String.eqb resolution "worst" || String.eqb resolution "best").
    + destruct res as [r|].
      * destruct (resolution_sum (Resolution g)) as [cur| |]; try discriminate.
        destruct (resolution_sum (Resolution r)) as [old| |]; try discriminate.
        destruct (String.eqb (Resolution g) resolution).
        -- intros H. inversion H. left. left. reflexivity.
        -- intros H. apply IH in H. destruct H as [H | H]; [left; right; exact H |].
           destruct (String.eqb resolution "worst" && (cur <? old)%Z);
             [inversion H; left; left; reflexivity |].
           destruct (String.eqb resolution "best" && (old <? cur)%Z);
             [inversion H; left; left; reflexivity | right; exact H].
      * intros H. apply IH in H. destruct H as [H | H]; [left; right; exact H |].
        inversion H. left. left. reflexivity.
    + destruct (String.eqb (Resolution g) resolution).
      * intros H. inversion H. left. left. reflexivity.
      * intros H. apply IH in H. destruct H as [H | H]; [left; right; exact H | right; exact H].
Qed.

Lemma Less_readable fbr i j fi fj :
  fbr !! i = Some fi -> fbr !! j = Some fj -> has_x fi -> has_x fj ->
  FormatsByResolution_Less fbr i j
  = Ok (key (Resolution fi) <? key (Resolution fj))%Z.
Proof.
  intros Hi Hj Hxi Hxj. unfold FormatsByResolution_Less, index.
  rewrite Hi, Hj, (resolution_sum_key _ Hxi), (resolution_sum_key _ Hxj). reflexivity.
Qed.

Lemma earliest_best_bound l b g :
  earliest_best l b -> In g l -> (key (Resolution g) <= key (Resolution b))%Z.
Proof.
  intros (pre & post & -> & Hpre & Hpost) Hin.
  apply in_app_or in Hin. destruct Hin as [Hin | [<- | Hin]].
  - rewrite List.Forall_forall in Hpre. specialize (Hpre g Hin). lia.
  - lia.
  - rewrite List.Forall_forall in Hpost. exact (Hpost g Hin).
Qed.

Lemma earliest_worst_bound l b g :
  earliest_worst l b -> In g l -> (key (Resolution b) <= key (Resolution g))%Z.
Proof.
  intros (pre & post & -> & Hpre & Hpost) Hin.
  apply in_app_or in Hin. destruct Hin as [Hin | [<- | Hin]].
  - rewrite List.Forall_forall in Hpre. specialize (Hpre g Hin). lia.
  - lia.
  - rewrite List.Forall_forall in Hpost. exact (Hpost g Hin).
Qed.

End FormatMore.

(** X14.  For a resolution other than "best" and "worst", [GetFormat]
    returns the first format of the selected stream whose resolution
    text equals the request verbatim, whatever comes before it in the
    list. *)
Theorem X14_GetFormat_exact_match
    (fromVideoStreams : Crunchyroll -> string -> M (slice Stream))
    (Formats : Stream -> M (slice Format))
    (c : Crunchyroll) (e : Episode.t) (resolution subtitle : string) (hardsub : bool)
    (h : list Request) (s : Stream) (e' : Episode.t) (h1 : list Request)
    (formats : slice Format) (h2 : list Request)
    (pre : list Format) (f : Format) (post : list Format) :
  Episode.select_stream fromVideoStreams c e subtitle hardsub h = (Ok (s, e'), h1) ->
  Formats s h1 = (Ok formats, h2) ->
  resolution <> "best" -> resolution <> "worst" ->
  elems formats = pre ++ f :: post ->
  Forall (fun g => Resolution g <> resolution) pre ->
  Resolution f = resolution ->
  Episode.GetFormat fromVideoStreams Formats c e resolution subtitle hardsub h
  = (Ok (f, e'), h2).
Proof.
  intros Hs Hf Hb Hw Hl Hpre Hres.
  rewrite (GetFormat_unfold fromVideoStreams Formats c e resolution subtitle hardsub
             h s e' h1 formats h2 Hs Hf).
  rewrite Hl, (pick_format_exact_hit resolution None pre f post Hb Hw Hpre Hres).
  reflexivity.
Qed.

Lemma X14_GetFormat_exact_match_witness :
  Episode.GetFormat (Sample.stream_source [Sample.raw])
    (Sample.formats_of "raw" [Sample.f1080; Sample.f720; Sample.f360])
    Sample.session Sample.episode "1280x720" "" true []
  = (Ok (Sample.f720, Episode.set_children (Some [Sample.raw]) Sample.episode), []).
Proof.
  apply (X14_GetFormat_exact_match (Sample.stream_source [Sample.raw])
           (Sample.formats_of "raw" [Sample.f1080; Sample.f720; Sample.f360])
           Sample.session Sample.episode "1280x720" "" true []
           Sample.raw (Episode.set_children (Some [Sample.raw]) Sample.episode) []
           (Some [Sample.f1080; Sample.f720; Sample.f360]) []
           [Sample.f1080] Sample.f720 [Sample.f360]);
    try reflexivity; try discriminate.
  repeat constructor. simpl. discriminate.
Defined.

(** X15.  For "best" and "worst", [GetFormat] panics with an index out
    of range exactly when the selected stream has at least two formats
    and the resolution text of one of them contains no x; with a single
    format nothing is parsed. *)
Theorem X15_GetFormat_sentinel_panic
    (fromVideoStreams : Crunchyroll -> string -> M (slice Stream))
    (Formats : Stream -> M (slice Format))
    (c : Crunchyroll) (e : Episode.t) (resolution subtitle : string) (hardsub : bool)
    (h : list Request) (s : Stream) (e' : Episode.t) (h1 : list Request)
    (formats : slice Format) (h2 : list Request) :
  Episode.select_stream fromVideoStreams c e subtitle hardsub h = (Ok (s, e'), h1) ->
  Formats s h1 = (Ok formats, h2) ->
  resolution = "best" \/ resolution = "worst" ->
  (Episode.GetFormat fromVideoStreams Formats c e resolution subtitle hardsub h
   = (Panic "index out of range", h2)
   <-> (2 <= length (elems formats))%nat
       /\ Exists (fun f => ~ Rules.has_x f) (elems formats)).
Proof.
  intros Hs Hf Hsent.
  rewrite (GetFormat_unfold fromVideoStreams Formats c e resolution subtitle hardsub
             h s e' h1 formats h2 Hs Hf).
  rewrite <- (pick_sentinel_panic_iff resolution (elems formats) Hsent).
  destruct (Episode.pick_format resolution None (elems formats)) as [f|err|why].
  - split; discriminate.
  - split; discriminate.
  - split; intros H; inversion H; reflexivity.
Qed.

Lemma X15_GetFormat_sentinel_panic_witness :
  Episode.GetFormat (Sample.stream_source [Sample.raw])
    (Sample.formats_of "raw" [Sample.f1080; Sample.f_odd])
    Sample.session Sample.episode "worst" "" true []
  = (Panic "index out of range", []).
Proof.
  apply (proj2 (X15_GetFormat_sentinel_panic (Sample.stream_source [Sample.raw])
           (Sample.formats_of "raw" [Sample.f1080; Sample.f_odd])
           Sample.session Sample.episode "worst" "" true []
           Sample.raw (Episode.set_children (Some [Sample.raw]) Sample.episode) []
           (Some [Sample.f1080; Sample.f_odd]) [] eq_refl eq_refl
           (or_intror eq_refl))).
  split; [simpl; lia |].
  right. left. intros [p Hp]. discriminate Hp.
Defined.

(** X16.  A format returned by [GetFormat] is always one of the
    formats of the selected stream. *)
Theorem X16_GetFormat_returns_listed_format
    (fromVideoStreams : Crunchyroll -> string -> M (slice Stream))
    (Formats : Stream -> M (slice Format))
    (c : Crunchyroll) (e : Episode.t) (resolution subtitle : string) (hardsub : bool)
    (h : list Request) (s : Stream) (e' : Episode.t) (h1 : list Request)
    (formats : slice Format) (h2 : list Request)
    (f : Format) (e'' : Episode.t) (h3 : list Request) :
  Episode.select_stream fromVideoStreams c e subtitle hardsub h = (Ok (s, e'), h1) ->
  Formats s h1 = (Ok formats, h2) ->
  Episode.GetFormat fromVideoStreams Formats c e resolution subtitle hardsub h
  = (Ok (f, e''), h3) ->
  In f (elems formats).
Proof.
  intros Hs Hf.
  rewrite (GetFormat_unfold fromVideoStreams Formats c e resolution subtitle hardsub
             h s e' h1 formats h2 Hs Hf).
  destruct (Episode.pick_format resolution None (elems formats)) as [g|err|why] eqn:E;
    try discriminate.
  intros H. inversion H; subst.
  destruct (pick_format_member resolution (elems formats) None f E) as [Hin | Hno];
    [exact Hin | discriminate].
Qed.

Lemma X16_GetFormat_returns_listed_format_witness :
  In Sample.f720 [Sample.f1080; Sample.f720; Sample.f360].
Proof.
  apply (X16_GetFormat_returns_listed_format (Sample.stream_source [Sample.raw])
           (Sample.formats_of "raw" [Sample.f1080; Sample.f720; Sample.f360])
           Sample.session Sample.episode "1280x720" "" true []
           Sample.raw (Episode.set_children (Some [Sample.raw]) Sample.episode) []
           (Some [Sample.f1080; Sample.f720; Sample.f360]) []
           Sample.f720 (Episode.set_children (Some [Sample.raw]) Sample.episode) []);
    reflexivity.
Defined.



(** X18.  The format that [GetFormat] returns for "best" is never
    ranked below another format of the stream by
    [FormatsByResolution.Less], and the one it returns for "worst" is
    never ranked above another: the selection and the sort order agree
    on what is largest and smallest. *)
Theorem X18_best_and_worst_agree_with_Less
    (fromVideoStreams : Crunchyroll -> string -> M (slice Stream))
    (Formats : Stream -> M (slice Format))
    (c : Crunchyroll) (e : Episode.t) (subtitle : string) (hardsub : bool)
    (h : list Request) (s : Stream) (e' : Episode.t) (h1 : list Request)
    (formats : slice Format) (h2 : list Request) :
  Episode.select_stream fromVideoStreams c e subtitle hardsub h = (Ok (s, e'), h1) ->
  Formats s h1 = (Ok formats, h2) ->
  Forall Rules.has_x (elems formats) ->
  (forall b e'' h3 i j g,
      Episode.GetFormat fromVideoStreams Formats c e "best" subtitle hardsub h
      = (Ok (b, e''), h3) ->
      elems formats !! i = Some b -> elems formats !! j = Some g ->
      FormatsByResolution_Less (elems formats) i j = Ok false)
  /\ (forall b e'' h3 i j g,
         Episode.GetFormat fromVideoStreams Formats c e "worst" subtitle hardsub h
         = (Ok (b, e''), h3) ->
         elems formats !! i = Some b -> elems formats !! j = Some g ->
         FormatsByResolution_Less (elems formats) j i = Ok false).
Proof.
  intros Hs Hf Hall.
  assert (Hx : forall k g, elems formats !! k = Some g -> Rules.has_x g /\ In g (elems formats)).
  { intros k g Hk. assert (Hin : In g (elems formats))
      by (apply list_elem_of_In, (list_elem_of_lookup_2 _ k), Hk).
    split; [| exact Hin]. rewrite List.Forall_forall in Hall. apply Hall, Hin. }
  split.
  - intros b e'' h3 i j g.
    rewrite (GetFormat_unfold fromVideoStreams Formats c e "best" subtitle hardsub
               h s e' h1 formats h2 Hs Hf).
    intros Hget Hi Hj.
    destruct (Hx i b Hi) as [Hxb Hinb]. destruct (Hx j g Hj) as [Hxg Hing].
    assert (Hne : elems formats <> []) by (intros E; rewrite E in Hinb; contradiction).
    destruct (pick_format_best (elems formats) Hne Hall) as (b' & Hb' & Hbest).
    rewrite Hb' in Hget. inversion Hget; subst.
    rewrite (Less_readable _ i j b g Hi Hj Hxb Hxg). f_equal.
    apply Z.ltb_ge. exact (earliest_best_bound _ b g Hbest Hing).
  - intros b e'' h3 i j g.
    rewrite (GetFormat_unfold fromVideoStreams Formats c e "worst" subtitle hardsub
               h s e' h1 formats h2 Hs Hf).
    intros Hget Hi Hj.
    destruct (Hx i b Hi) as [Hxb Hinb]. destruct (Hx j g Hj) as [Hxg Hing].
    assert (Hne : elems formats <> []) by (intros E; rewrite E in Hinb; contradiction).
    destruct (pick_format_worst (elems formats) Hne Hall) as (b' & Hb' & Hworst).
    rewrite Hb' in Hget. inversion Hget; subst.
    rewrite (Less_readable _ j i g b Hj Hi Hxg Hxb). f_equal.
    apply Z.ltb_ge. exact (earliest_worst_bound _ b g Hworst Hing).
Qed.

Lemma X18_best_and_worst_agree_with_Less_witness :
  FormatsByResolution_Less [Sample.f360; Sample.f1080; Sample.f720] 1 2 = Ok false.
Proof.
  apply (proj1 (X18_best_and_worst_agree_with_Less
           (Sample.stream_source [Sample.raw])
           (Sample.formats_of "raw" [Sample.f360; Sample.f1080; Sample.f720])
           Sample.session Sample.episode "" true []
           Sample.raw (Episode.set_children (Some [Sample.raw]) Sample.episode) []
           (Some [Sample.f360; Sample.f1080; Sample.f720]) [] eq_refl eq_refl
           ltac:(simpl; repeat constructor; eexists; reflexivity))
           Sample.f1080 (Episode.set_children (Some [Sample.raw]) Sample.episode) []
           1%nat 2%nat Sample.f720);
    reflexivity.
Defined.

(* ===================================================================== *)
(** ** Properties of [SortEpisodesBySeason]                               *)
(* ===================================================================== *)

Section BySeasonFacts.

Import Sort.

Variable E : Type.
Variable SeriesID : E -> string.
Variable SeasonNumber : E -> Z.
Variable EpisodeNumber : E -> Z.
Variable range : gmap string (gmap Z (list E)) -> list (string * gmap Z (list E)).
Variable sort_Sort : list E -> list E.

Hypothesis range_visits_all : forall m, Permutation (range m) (map_to_list m).
Hypothesis sort_keeps : forall l, Permutation (sort_Sort l) l.

#[local] Abbreviation file := (file_episode E SeriesID SeasonNumber).
#[local] Abbreviation grouped := (group_map E SeriesID SeasonNumber).
#[local] Abbreviation filed := (filed E).
#[local] Abbreviation in_season := (in_season E SeriesID SeasonNumber).
#[local] Abbreviation no_empty := (no_empty E).

Lemma filed_file m e sid sn :
  filed (file m e) sid sn
  = if decide (in_season sid sn e) then filed m sid sn ++ [e] else filed m sid sn.
Proof.
  unfold Sort.filed, file_episode, Sort.in_season.
  destruct (decide (SeriesID e = sid)) as [<- | Hsid].
  - rewrite lookup_insert_eq. simpl.
    destruct (decide (SeasonNumber e = sn)) as [<- | Hsn].
    + rewrite lookup_insert_eq. simpl.
      destruct (decide _) as [_ | Hn]; [reflexivity | exfalso; apply Hn; split; reflexivity].
    + rewrite lookup_insert_ne by exact Hsn.
      destruct (decide _) as [[_ Hy] | _]; [contradiction | reflexivity].
  - rewrite lookup_insert_ne by exact Hsid.
    destruct (decide _) as [[Hy _] | _]; [contradiction | reflexivity].
Qed.

Lemma filed_fold l : forall m sid sn,
  filed (fold_left file l m) sid sn
  = filed m sid sn ++ filter (in_season sid sn) l.
Proof.
  induction l as [|e l IH]; intros m sid sn; simpl.
  - rewrite app_nil_r. reflexivity.
  - rewrite IH, filed_file. rewrite filter_cons.
    destruct (decide (in_season sid sn e)).
    + rewrite <- app_assoc. reflexivity.
    + reflexivity.
Qed.

Lemma filed_grouped l sid sn : filed (grouped l) sid sn = filter (in_season sid sn) l.
Proof. unfold group_map. rewrite filed_fold. reflexivity. Qed.

Lemma no_empty_file m e : no_empty m -> no_empty (file m e).
Proof.
  intros Hm sid series sn es. unfold file_episode.
  destruct (decide (SeriesID e = sid)) as [<- | Hsid].
  - rewrite lookup_insert_eq. intros H. inversion H; subst. clear H.
    destruct (decide (SeasonNumber e = sn)) as [<- | Hsn].
    + rewrite lookup_insert_eq. intros H. inversion H. intros Hnil.
      apply app_eq_nil in Hnil. destruct Hnil as [_ Hnil]. discriminate.
    + rewrite lookup_insert_ne by exact Hsn.
      destruct (m !! SeriesID e) as [series|] eqn:Hs; simpl.
      * intros H. exact (Hm _ _ _ _ Hs H).
      * rewrite lookup_empty. discriminate.
  - rewrite lookup_insert_ne by exact Hsid. apply Hm.
Qed.

Lemma no_empty_fold l : forall m, no_empty m -> no_empty (fold_left file l m).
Proof.
  induction l as [|e l IH]; intros m Hm; simpl; [exact Hm |].
  apply IH, no_empty_file, Hm.
Qed.

Lemma no_empty_grouped l : no_empty (grouped l).
Proof.
  apply no_empty_fold. intros sid series sn es H. rewrite lookup_empty in H. discriminate.
Qed.

Lemma grouped_lookup l sid series sn es :
  grouped l !! sid = Some series -> series !! sn = Some es ->
  es = filter (in_season sid sn) l /\ es <> [].
Proof.
  intros Hs He. split.
  - rewrite <- filed_grouped. unfold Sort.filed. rewrite Hs. simpl. rewrite He. reflexivity.
  - exact (no_empty_grouped l sid series sn es Hs He).
Qed.

(** *** Everything filed is what was put in *)

Lemma concat_map_Permutation {A B} (g : A -> list B) (l l' : list A) :
  Permutation l l' -> Permutation (concat (map g l)) (concat (map g l')).
Proof.
  induction 1 as [|x l l' _ IH|x y l|l l' l'' _ IH1 _ IH2]; simpl.
  - reflexivity.
  - apply Permutation_app_head. exact IH.
  - rewrite !app_assoc. apply Permutation_app_tail. apply Permutation_app_comm.
  - etransitivity; eassumption.
Qed.

Lemma flat_insert {K} `{Countable K} {V} (f : V -> list E) (m : gmap K V) k v' e :
  Permutation (f v') (e :: from_option f [] (m !! k)) ->
  Permutation (concat (map (fun entry => f (snd entry)) (map_to_list (<[k := v']> m))))
              (e :: concat (map (fun entry => f (snd entry)) (map_to_list m))).
Proof.
  intros Hv. destruct (m !! k) as [v|] eqn:Hk; simpl in Hv.
  - rewrite <- insert_delete_eq.
    rewrite (concat_map_Permutation _ _ _
               (map_to_list_insert (delete k m) k v' (lookup_delete_eq m k))).
    rewrite <- (concat_map_Permutation _ _ _ (map_to_list_delete m k v Hk)).
    simpl. rewrite Hv. reflexivity.
  - rewrite (concat_map_Permutation _ _ _ (map_to_list_insert m k v' Hk)).
    simpl. rewrite Hv. reflexivity.
Qed.

Lemma flat2_file m e : Permutation (flat2 E (file m e)) (e :: flat2 E m).
Proof.
  unfold flat2, file_episode. apply (flat_insert (flat1 E)).
  set (series := default ∅ (m !! SeriesID e)).
  assert (Hs : from_option (flat1 E) [] (m !! SeriesID e) = flat1 E series).
  { subst series. destruct (m !! SeriesID e); simpl; [reflexivity |].
    unfold flat1. rewrite map_to_list_empty. reflexivity. }
  rewrite Hs. unfold flat1.
  assert (Hid : forall s : gmap Z (list E),
             map snd (map_to_list s) = map (fun entry => id (snd entry)) (map_to_list s))
    by reflexivity.
  rewrite !Hid. apply (flat_insert id).
  destruct (series !! SeasonNumber e); simpl;
    symmetry; apply Permutation_cons_append.
Qed.

Lemma flat2_fold l : forall m,
  Permutation (flat2 E (fold_left file l m)) (flat2 E m ++ l).
Proof.
  induction l as [|e l IH]; intros m; simpl.
  - rewrite app_nil_r. reflexivity.
  - rewrite IH, flat2_file. simpl. apply Permutation_middle.
Qed.

Lemma flat2_grouped l : Permutation (flat2 E (grouped l)) l.
Proof.
  unfold group_map. rewrite flat2_fold. unfold flat2.
  rewrite map_to_list_empty. reflexivity.
Qed.

(** *** The two loops that build the result *)

Lemma emit_series_groups series : forall eps,
  emit_series E sort_Sort eps series
  = eps ++ groups E sort_Sort series (season_keys E series).
Proof.
  unfold emit_series, groups. generalize (season_keys E series) as keys.
  induction keys as [|key keys IH]; intros eps; simpl.
  - rewrite app_nil_r. reflexivity.
  - rewrite IH. destruct (0 <? length (default [] (series !! key)))%nat.
    + rewrite <- app_assoc. reflexivity.
    + reflexivity.
Qed.

Lemma SortEpisodesBySeason_groups episodes :
  SortEpisodesBySeason E SeriesID SeasonNumber range sort_Sort episodes
  = flat_map (fun entry => groups E sort_Sort (snd entry) (season_keys E (snd entry)))
             (range (grouped episodes)).
Proof.
  unfold SortEpisodesBySeason.
  assert (Hgen : forall (entries : list (string * gmap Z (list E))) eps,
             fold_left (fun eps entry => emit_series E sort_Sort eps (snd entry)) entries eps
             = eps ++ flat_map (fun entry => groups E sort_Sort (snd entry)
                                               (season_keys E (snd entry))) entries).
  { induction entries as [|entry entries IH]; intros eps; simpl.
    - rewrite app_nil_r. reflexivity.
    - rewrite IH, emit_series_groups, <- app_assoc. reflexivity. }
  rewrite Hgen. reflexivity.
Qed.

Lemma season_keys_In series key :
  In key (season_keys E series) <-> is_Some (series !! key).
Proof.
  unfold season_keys. rewrite <- list_elem_of_In.
  rewrite (merge_sort_Permutation Z.le), list_elem_of_In, in_map_iff. split.
  - intros ([k es] & <- & Hin). apply list_elem_of_In, elem_of_map_to_list in Hin.
    simpl. eauto.
  - intros [es Hes]. exists (key, es). split; [reflexivity |].
    apply list_elem_of_In, elem_of_map_to_list. exact Hes.
Qed.

Lemma groups_In series keys g :
  In g (groups E sort_Sort series keys)
  <-> exists key, In key keys /\ default [] (series !! key) <> []
                  /\ g = sort_Sort (default [] (series !! key)).
Proof.
  unfold groups. rewrite in_flat_map. split.
  - intros (key & Hk & Hg). exists key. split; [exact Hk |].
    destruct (default [] (series !! key)) as [|x es]; simpl in Hg; [contradiction |].
    destruct Hg as [<- | []]. split; [discriminate | reflexivity].
  - intros (key & Hk & Hne & ->). exists key. split; [exact Hk |].
    destruct (default [] (series !! key)) as [|x es]; [contradiction |].
    simpl. left. reflexivity.
Qed.

Lemma groups_concat series keys :
  Permutation (concat (groups E sort_Sort series keys))
              (concat (map (fun key => default [] (series !! key)) keys)).
Proof.
  unfold groups. induction keys as [|key keys IH]; simpl; [reflexivity |].
  rewrite concat_app, IH.
  apply Permutation_app_tail.
  destruct (default [] (series !! key)) as [|x es] eqn:Hd; simpl; [reflexivity |].
  rewrite app_nil_r. apply sort_keeps.
Qed.

Lemma groups_of_series series :
  Permutation (concat (groups E sort_Sort series (season_keys E series)))
              (flat1 E series).
Proof.
  rewrite groups_concat. unfold season_keys, flat1.
  rewrite (concat_map_Permutation _ _ _ (merge_sort_Permutation Z.le _)).
  rewrite map_map. apply Permutation_refl'. f_equal.
  apply map_ext_in. intros [k es] Hin. simpl.
  apply list_elem_of_In, elem_of_map_to_list in Hin. rewrite Hin. reflexivity.
Qed.

Lemma concat_flat_map_Permutation {A B} (F : A -> list (list B)) (G : A -> list B) l :
  (forall x, Permutation (concat (F x)) (G x)) ->
  Permutation (concat (flat_map F l)) (concat (map G l)).
Proof.
  intros HFG. induction l as [|x l IH]; simpl; [reflexivity |].
  rewrite concat_app, IH, HFG. reflexivity.
Qed.

Lemma SortEpisodesBySeason_all episodes :
  Permutation
    (concat (SortEpisodesBySeason E SeriesID SeasonNumber range sort_Sort episodes))
    episodes.
Proof.
  rewrite SortEpisodesBySeason_groups.
  rewrite (concat_flat_map_Permutation _ (fun entry => flat1 E (snd entry)))
    by (intros entry; apply groups_of_series).
  rewrite (concat_map_Permutation _ _ _ (range_visits_all _)).
  apply flat2_grouped.
Qed.

Lemma SortEpisodesBySeason_group episodes g :
  In g (SortEpisodesBySeason E SeriesID SeasonNumber range sort_Sort episodes) ->
  exists sid sn,
    Permutation g (filter (in_season sid sn) episodes) /\ g <> []
    /\ g = sort_Sort (filter (in_season sid sn) episodes).
Proof.
  rewrite SortEpisodesBySeason_groups, in_flat_map.
  intros ([sid series] & Hentry & Hg). simpl in Hg.
  apply groups_In in Hg. destruct Hg as (key & Hkey & Hne & ->).
  apply season_keys_In in Hkey. destruct Hkey as [es Hes].
  rewrite Hes in *. simpl in *.
  apply list_elem_of_In in Hentry. rewrite (range_visits_all _) in Hentry.
  apply elem_of_map_to_list in Hentry.
  destruct (grouped_lookup episodes sid series key es Hentry Hes) as [-> _].
  exists sid, key. split; [apply sort_keeps | split; [| reflexivity]].
  intros Hnil. apply Hne. apply Permutation_nil.
  rewrite <- Hnil. apply sort_keeps.
Qed.

(** *** The order of the groups *)

Lemma group_members episodes sid series key e :
  grouped episodes !! sid = Some series ->
  In e (sort_Sort (default [] (series !! key))) ->
  SeriesID e = sid /\ SeasonNumber e = key.
Proof.
  intros Hs He. apply list_elem_of_In in He. rewrite (sort_keeps _) in He.
  destruct (series !! key) as [es|] eqn:Hes; simpl in He.
  - destruct (grouped_lookup episodes sid series key es Hs Hes) as [-> _].
    apply list_elem_of_filter in He. destruct He as [Hin _]. exact Hin.
  - inversion He.
Qed.

Lemma strictly_ascending (l : list Z) :
  StronglySorted Z.le l -> NoDup l -> StronglySorted Z.lt l.
Proof.
  induction 1 as [|x l Hl IH Hx]; intros Hnd; [constructor |].
  apply NoDup_cons in Hnd. destruct Hnd as [Hnotin Hnd].
  constructor; [apply IH; exact Hnd |].
  rewrite List.Forall_forall in *. intros y Hy.
  specialize (Hx y Hy). assert (x <> y) by (intros ->; apply Hnotin, list_elem_of_In, Hy).
  lia.
Qed.

Lemma season_keys_ascending series : StronglySorted Z.lt (season_keys E series).
Proof.
  unfold season_keys. apply strictly_ascending.
  - apply StronglySorted_merge_sort; apply _.
  - rewrite (merge_sort_Permutation Z.le). apply NoDup_fst_map_to_list.
Qed.

Lemma groups_ordered episodes sid series keys :
  grouped episodes !! sid = Some series ->
  StronglySorted Z.lt keys ->
  StronglySorted (season_before E SeriesID SeasonNumber) (groups E sort_Sort series keys).
Proof.
  intros Hs. induction 1 as [|key keys Hkeys IH Hkey]; simpl; [constructor |].
  apply StronglySorted_app_2; [| | exact IH].
  - intros g1 g2 Hg1 Hg2.
    destruct (0 <? length (default [] (series !! key)))%nat; [| inversion Hg1].
    apply list_elem_of_singleton in Hg1. subst g1.
    apply list_elem_of_In, groups_In in Hg2. destruct Hg2 as (key' & Hk' & _ & ->).
    intros e1 e2 He1 He2 _.
    destruct (group_members episodes sid series key e1 Hs He1) as [_ ->].
    destruct (group_members episodes sid series key' e2 Hs He2) as [_ ->].
    rewrite List.Forall_forall in Hkey. exact (Hkey key' Hk').
  - destruct (0 <? length (default [] (series !! key)))%nat; repeat constructor.
Qed.

Lemma entries_ordered episodes (entries : list (string * gmap Z (list E))) :
  NoDup (map fst entries) ->
  Forall (fun entry => grouped episodes !! fst entry = Some (snd entry)) entries ->
  StronglySorted (season_before E SeriesID SeasonNumber)
    (flat_map (fun entry => groups E sort_Sort (snd entry) (season_keys E (snd entry)))
              entries).
Proof.
  induction entries as [|[sid series] entries IH]; intros Hnd HF; simpl; [constructor |].
  simpl in Hnd. apply NoDup_cons in Hnd. destruct Hnd as [Hnotin Hnd].
  inversion HF as [|? ? Hhead Hrest]; subst. simpl in Hhead.
  apply StronglySorted_app_2.
  - intros g1 g2 Hg1 Hg2.
    apply list_elem_of_In, groups_In in Hg1. destruct Hg1 as (key & _ & _ & ->).
    apply list_elem_of_In, in_flat_map in Hg2.
    destruct Hg2 as ([sid' series'] & Hentry & Hg2). simpl in Hg2.
    apply groups_In in Hg2. destruct Hg2 as (key' & _ & _ & ->).
    rewrite List.Forall_forall in Hrest. pose proof (Hrest _ Hentry) as Hs'. simpl in Hs'.
    intros e1 e2 He1 He2 Hsame. exfalso.
    destruct (group_members episodes sid series key e1 Hhead He1) as [H1 _].
    destruct (group_members episodes sid' series' key' e2 Hs' He2) as [H2 _].
    apply Hnotin. apply list_elem_of_In, in_map_iff.
    exists (sid', series'). split; [simpl; congruence | exact Hentry].
  - apply (groups_ordered episodes sid series _ Hhead), season_keys_ascending.
  - apply IH; assumption.
Qed.

Lemma SortEpisodesBySeason_ordered episodes :
  StronglySorted (season_before E SeriesID SeasonNumber)
    (SortEpisodesBySeason E SeriesID SeasonNumber range sort_Sort episodes).
Proof.
  rewrite SortEpisodesBySeason_groups. apply (entries_ordered episodes).
  - rewrite (range_visits_all _). apply NoDup_fst_map_to_list.
  - apply List.Forall_forall. intros [sid series] Hin. simpl.
    apply list_elem_of_In in Hin. rewrite (range_visits_all _) in Hin.
    apply elem_of_map_to_list in Hin. exact Hin.
Qed.

End BySeasonFacts.

(** X19.  [SortEpisodesBySeason] loses and invents nothing: whatever
    the order in which the map is visited, and for any sort that only
    rearranges, the groups it returns hold, taken together, exactly the
    episodes it was given, each as often as it was given. *)
Theorem X19_SortEpisodesBySeason_keeps_all
    (E : Type) (SeriesID : E -> string) (SeasonNumber : E -> Z)
    (range : gmap string (gmap Z (list E)) -> list (string * gmap Z (list E)))
    (sort_Sort : list E -> list E) (episodes : list E) :
  (forall m, Permutation (range m) (map_to_list m)) ->
  (forall l, Permutation (sort_Sort l) l) ->
  Permutation
    (concat (Sort.SortEpisodesBySeason E SeriesID SeasonNumber range sort_Sort episodes))
    episodes.
Proof. intros Hrange Hsort. apply SortEpisodesBySeason_all; assumption. Qed.

Lemma X19_SortEpisodesBySeason_keeps_all_witness :
  Permutation
    (concat (Sort.SortEpisodesBySeason (string * Z * Z) Sample2.ep_series Sample2.ep_season
               Sample2.in_map_order Sample2.by_number Sample2.shelf))
    Sample2.shelf.
Proof.
  apply X19_SortEpisodesBySeason_keeps_all.
  - intros m. reflexivity.
  - intros l. apply merge_sort_Permutation.
Defined.

Lemma Sorted_by_Less {E} (EpisodeNumber : E -> Z) (l : list E) :
  Sorted (fun a b => Sort.EpisodesByNumber_Less E EpisodeNumber b a = false) l ->
  Sorted (Sort.number_le E EpisodeNumber) l.
Proof.
  assert (Hstep : forall a l',
             HdRel (fun a b => Sort.EpisodesByNumber_Less E EpisodeNumber b a = false) a l' ->
             HdRel (Sort.number_le E EpisodeNumber) a l').
  { intros a l' H. destruct H as [|b l' Hab]; constructor.
    unfold Sort.EpisodesByNumber_Less in Hab. apply Z.ltb_ge in Hab. exact Hab. }
  induction 1 as [|a l' _ IH Hhd]; constructor; [exact IH | apply Hstep, Hhd].
Qed.

(** X20.  For a sort that rearranges its input so that no episode is
    followed by one that [EpisodesByNumber.Less] puts before it, every
    group that [SortEpisodesBySeason] returns is not empty, is in
    ascending episode number, and holds all the episodes of the input
    of one series and one season, and no other. *)
Theorem X20_SortEpisodesBySeason_groups
    (E : Type) (SeriesID : E -> string) (SeasonNumber : E -> Z) (EpisodeNumber : E -> Z)
    (range : gmap string (gmap Z (list E)) -> list (string * gmap Z (list E)))
    (sort_Sort : list E -> list E) (episodes : list E) (g : list E) :
  (forall m, Permutation (range m) (map_to_list m)) ->
  (forall l, Permutation (sort_Sort l) l) ->
  (forall l, Sorted (fun a b => Sort.EpisodesByNumber_Less E EpisodeNumber b a = false)
                    (sort_Sort l)) ->
  In g (Sort.SortEpisodesBySeason E SeriesID SeasonNumber range sort_Sort episodes) ->
  g <> []
  /\ Sorted (Sort.number_le E EpisodeNumber) g
  /\ exists sid sn,
       Permutation g (filter (Sort.in_season E SeriesID SeasonNumber sid sn) episodes)
       /\ Forall (Sort.in_season E SeriesID SeasonNumber sid sn) g.
Proof.
  intros Hrange Hsort Hsorted Hin.
  destruct (SortEpisodesBySeason_group E SeriesID SeasonNumber range sort_Sort
              Hrange Hsort episodes g Hin) as (sid & sn & Hperm & Hne & Hg).
  split; [exact Hne |]. split; [rewrite Hg; apply Sorted_by_Less, Hsorted |].
  exists sid, sn. split; [exact Hperm |].
  apply List.Forall_forall. intros e He.
  apply list_elem_of_In in He. rewrite Hperm in He.
  apply list_elem_of_filter in He. destruct He as [He _]. exact He.
Qed.

Lemma X20_SortEpisodesBySeason_groups_witness :
  [Sample2.ep "A" 1 1; Sample2.ep "A" 1 3] <> []
  /\ Sorted (Sort.number_le (string * Z * Z) Sample2.ep_number)
       [Sample2.ep "A" 1 1; Sample2.ep "A" 1 3]
  /\ exists sid sn,
       Permutation [Sample2.ep "A" 1 1; Sample2.ep "A" 1 3]
         (filter (Sort.in_season (string * Z * Z) Sample2.ep_series Sample2.ep_season sid sn)
                 Sample2.shelf)
       /\ Forall (Sort.in_season (string * Z * Z) Sample2.ep_series Sample2.ep_season sid sn)
            [Sample2.ep "A" 1 1; Sample2.ep "A" 1 3].
Proof.
  apply (X20_SortEpisodesBySeason_groups (string * Z * Z) Sample2.ep_series
           Sample2.ep_season Sample2.ep_number Sample2.in_map_order Sample2.by_number
           Sample2.shelf).
  - intros m. reflexivity.
  - intros l. apply merge_sort_Permutation.
  - intros l.
    assert (Hs : Sorted (fun a b => (Sample2.ep_number a <= Sample2.ep_number b)%Z)
                   (Sample2.by_number l)).
    { apply (@Sorted_merge_sort _
               (fun a b => (Sample2.ep_number a <= Sample2.ep_number b)%Z) _
               (fun a b => Z.le_ge_cases (Sample2.ep_number a) (Sample2.ep_number b))). }
    induction Hs as [|a l' _ IH Hhd]; constructor; [exact IH |].
    destruct Hhd as [|b l' Hab]; constructor.
    unfold Sort.EpisodesByNumber_Less. apply Z.ltb_ge. exact Hab.
  - vm_compute. left. reflexivity.
Defined.

(** X21.  In the result of [SortEpisodesBySeason] the groups of one
    series come in ascending season number: whenever a group stands
    before another and both hold an episode of the same series, the
    season of the first is strictly smaller.  In particular no two
    groups share a series and a season. *)
Theorem X21_SortEpisodesBySeason_season_order
    (E : Type) (SeriesID : E -> string) (SeasonNumber : E -> Z)
    (range : gmap string (gmap Z (list E)) -> list (string * gmap Z (list E)))
    (sort_Sort : list E -> list E) (episodes : list E) :
  (forall m, Permutation (range m) (map_to_list m)) ->
  (forall l, Permutation (sort_Sort l) l) ->
  StronglySorted (Sort.season_before E SeriesID SeasonNumber)
    (Sort.SortEpisodesBySeason E SeriesID SeasonNumber range sort_Sort episodes).
Proof. intros Hrange Hsort. apply SortEpisodesBySeason_ordered; assumption. Qed.

Lemma X21_SortEpisodesBySeason_season_order_witness :
  StronglySorted (Sort.season_before (string * Z * Z) Sample2.ep_series Sample2.ep_season)
    (Sort.SortEpisodesBySeason (string * Z * Z) Sample2.ep_series Sample2.ep_season
       Sample2.in_map_order Sample2.by_number Sample2.shelf).
Proof.
  apply X21_SortEpisodesBySeason_season_order.
  - intros m. reflexivity.
  - intros l. apply merge_sort_Permutation.
Defined.

(** The function at work on five episodes of two series. *)
Example SortEpisodesBySeason_shelf :
  Sort.SortEpisodesBySeason (string * Z * Z) Sample2.ep_series Sample2.ep_season
    Sample2.in_map_order Sample2.by_number Sample2.shelf
  = [[Sample2.ep "A" 1 1; Sample2.ep "A" 1 3];
     [Sample2.ep "A" 2 1];
     [Sample2.ep "B" 1 1; Sample2.ep "B" 1 2]].
Proof. vm_compute. reflexivity. Qed.
